(** * albeebe/service: the [auth] package

    A shallow embedding of the authentication subsystem (package [auth]:
    [structs.go], [internal.go], [auth.go]) and of the endpoint registration
    that aggregates authorization requirements (package [service]).

    Go strings are byte sequences and are modelled by [string] (a list of
    8-bit characters); [int64] and [time.Time] are modelled by [Z]; a
    [map[string]*Key] is a [gmap string Key]; a nil-able pointer or error is an
    [option]. *)

From Stdlib Require Import ZArith Ascii String List Bool Lia.
From stdpp Require Import base option gmap strings.
Import ListNotations.

Local Open Scope string_scope.

(** ** Go's [strings] package, as far as the auth package uses it *)

Module GoStrings.

(** [strings.ToLower] on the ASCII range: the bytes 'A'..'Z' are mapped to
    'a'..'z' and every other byte is kept.  Go also lowers the upper-case
    runes outside ASCII, which the model leaves alone: where this development
    says that two strings are equal ignoring case, it is ASCII case.  (No rune
    outside ASCII lowers to a byte of "bearer ", so the test of the scheme in
    [Authenticate] is the same under both.) *)
Definition lower_byte (c : ascii) : ascii :=
  let n := nat_of_ascii c in
  if (65 <=? n)%nat && (n <=? 90)%nat then ascii_of_nat (n + 32) else c.

Fixpoint ToLower (s : string) : string :=
  match s with
  | EmptyString => EmptyString
  | String c s' => String (lower_byte c) (ToLower s')
  end.

Fixpoint HasPrefix (s prefix : string) : bool :=
  match prefix, s with
  | EmptyString, _ => true
  | String _ _, EmptyString => false
  | String p prefix', String c s' => Ascii.eqb c p && HasPrefix s' prefix'
  end.

(** The slice expression [s[n:]], in range when [n <= len(s)]. *)
Fixpoint slice_from (n : nat) (s : string) : string :=
  match n, s with
  | O, _ => s
  | S n', String _ s' => slice_from n' s'
  | S _, EmptyString => EmptyString
  end.

(** [unicode.IsSpace]: the ASCII white space '\t', '\n', '\v', '\f', '\r'
    and ' ', and the UTF-8 encodings of U+0085, U+00A0 (two bytes) and of
    U+1680, U+2000..U+200A, U+2028, U+2029, U+202F, U+205F, U+3000 (three
    bytes). *)
Definition isSpace (c : ascii) : bool :=
  let n := nat_of_ascii c in
  ((9 <=? n)%nat && (n <=? 13)%nat) || (n =? 32)%nat.

Definition isSpace2 (c d : ascii) : bool :=
  let m := nat_of_ascii c in
  let n := nat_of_ascii d in
  (m =? 194)%nat && ((n =? 133)%nat || (n =? 160)%nat).

Definition isSpace3 (c d e : ascii) : bool :=
  let l := nat_of_ascii c in
  let m := nat_of_ascii d in
  let n := nat_of_ascii e in
  ((l =? 225)%nat && (m =? 154)%nat && (n =? 128)%nat)
  || ((l =? 226)%nat && (m =? 128)%nat
      && (((128 <=? n)%nat && (n <=? 138)%nat)
          || (n =? 168)%nat || (n =? 169)%nat || (n =? 175)%nat))
  || ((l =? 226)%nat && (m =? 129)%nat && (n =? 159)%nat)
  || ((l =? 227)%nat && (m =? 128)%nat && (n =? 128)%nat).

(** [TrimLeftFunc(s, unicode.IsSpace)]: white-space runes are dropped from
    the front. *)
Fixpoint TrimLeft (s : string) : string :=
  match s with
  | EmptyString => EmptyString
  | String c s1 =>
      if isSpace c then TrimLeft s1
      else
        match s1 with
        | EmptyString => s
        | String d s2 =>
            if isSpace2 c d then TrimLeft s2
            else
              match s2 with
              | EmptyString => s
              | String e s3 => if isSpace3 c d e then TrimLeft s3 else s
              end
        end
  end.

Fixpoint rev_onto (s acc : string) : string :=
  match s with
  | EmptyString => acc
  | String c s' => rev_onto s' (String c acc)
  end.

(** The same from the back, on the reversed string: the last bytes come
    first, so the bytes of a rune are met in reverse order. *)
Fixpoint TrimLeft_rev (s : string) : string :=
  match s with
  | EmptyString => EmptyString
  | String e s1 =>
      if isSpace e then TrimLeft_rev s1
      else
        match s1 with
        | EmptyString => s
        | String d s2 =>
            if isSpace2 d e then TrimLeft_rev s2
            else
              match s2 with
              | EmptyString => s
              | String c s3 => if isSpace3 c d e then TrimLeft_rev s3 else s
              end
        end
  end.

(** [TrimRightFunc(s, unicode.IsSpace)] *)
Definition TrimRight (s : string) : string :=
  rev_onto (TrimLeft_rev (rev_onto s EmptyString)) EmptyString.

Definition TrimSpace (s : string) : string := TrimRight (TrimLeft s).

(** The strings made of ASCII white space only. *)
Fixpoint allSpace (s : string) : bool :=
  match s with
  | EmptyString => true
  | String c s' => isSpace c && allSpace s'
  end.

End GoStrings.

(** ** Go errors: sentinels, wrapping and [errors.Is] *)

(** The error values created once with [errors.New] and compared by identity:
    the exported sentinels of golang-jwt and the four of [internal.go]. *)
Inductive sentinel : Set :=
  | ErrTokenMalformed
  | ErrTokenUnverifiable
  | ErrTokenSignatureInvalid
  | ErrTokenInvalidClaims
  | ErrTokenExpired
  | ErrTokenUsedBeforeIssued
  | ErrTokenNotValidYet
  | errorAlgInvalid
  | errorAlgMissing
  | errorKidMissing
  | errorKeyNotFound.

Definition sentinel_eqb (x y : sentinel) : bool :=
  match x, y with
  | ErrTokenMalformed, ErrTokenMalformed
  | ErrTokenUnverifiable, ErrTokenUnverifiable
  | ErrTokenSignatureInvalid, ErrTokenSignatureInvalid
  | ErrTokenInvalidClaims, ErrTokenInvalidClaims
  | ErrTokenExpired, ErrTokenExpired
  | ErrTokenUsedBeforeIssued, ErrTokenUsedBeforeIssued
  | ErrTokenNotValidYet, ErrTokenNotValidYet
  | errorAlgInvalid, errorAlgInvalid
  | errorAlgMissing, errorAlgMissing
  | errorKidMissing, errorKidMissing
  | errorKeyNotFound, errorKeyNotFound => true
  | _, _ => false
  end.

#[local] Set Warnings "-register-all".

(** An error value: a sentinel, an error built by [errors.New] or
    [fmt.Errorf] at the place it is returned ([Wrapf] when the format wraps
    another error with the verb w), or golang-jwt's joined error. *)
Inductive error : Type :=
  | Sentinel (s : sentinel)
  | Errorf (msg : string)
  | Wrapf (msg : string) (wrapped : error)
  | Joined (msg : string) (errs : list error).

Fixpoint errors_Is (err : error) (target : sentinel) : bool :=
  match err with
  | Sentinel s => sentinel_eqb s target
  | Errorf _ => false
  | Wrapf _ e => errors_Is e target
  | Joined _ errs =>
      (fix any (l : list error) : bool :=
         match l with
         | [] => false
         | e :: l' => errors_Is e target || any l'
         end) errs
  end.

(** ** [structs.go] *)

Definition Time := Z.

(** [t.After(u)] *)
Definition Time_After (t u : Time) : bool := (u <? t)%Z.

(** [t.Before(u)] *)
Definition Time_Before (t u : Time) : bool := (t <? u)%Z.

Record Key : Type := mkKey {
  Kid : string;
  Iat : Z;
  Exp : Z;
  Alg : string;
  Pem : string
}.

Record AccessToken : Type := mkAccessToken {
  Token : string;
  Expires : Time
}.

Record AuthRequirements : Type := mkAuthRequirements {
  AnyRole : list string;
  AllPermissions : list string
}.

(** [http.Header] and [*http.Request]; a nil request is [None]. *)
Record Request : Type := mkRequest {
  Header : gmap string (list string)
}.

(** [h.Get(key)] for a key already in canonical form: the first value
    stored under the key, the empty string when there is none. *)
Definition Header_Get (h : gmap string (list string)) (key : string) : string :=
  match h !! key with
  | Some (v :: _) => v
  | _ => ""
  end.

(** [Key.Validate] *)
Definition Key_Validate (k : Key) : option error :=
  if String.eqb (Kid k) "" then Some (Errorf "kid is empty")
  else if (Iat k =? 0)%Z then Some (Errorf "iat is zero")
  else if (Exp k =? 0)%Z then Some (Errorf "exp is zero")
  else if String.eqb (Alg k) "" then Some (Errorf "alg is empty")
  else if String.eqb (Pem k) "" then Some (Errorf "pem is empty")
  else None.

(** ** The provider, the channel and the [Auth] instance *)

(** [AuthProvider] is supplied by the integrator.  The two refresh methods
    talk to an external service: the result of their n-th call is given by a
    function of n.  The slice returned by [RefreshKeys] holds pointers to
    keys, none of them nil. *)
Record AuthProvider : Type := mkAuthProvider {
  AuthorizeRequest : Request -> AuthRequirements -> bool * option error;
  IsServiceRequest : Request -> bool;
  RefreshAccessToken : nat -> option AccessToken * Time * option error;
  RefreshKeys : nat -> list Key * Time * option error
}.

(** An unbuffered [chan error], made by [New] and never nil: whether it has
    been closed, and the values of the senders currently blocked on it. *)
Record Chan : Type := mkChan {
  chan_id : nat;
  chan_closed : bool;
  chan_senders : list error
}.

Record Ticker : Type := mkTicker {
  ticker_period : Z
}.

Definition Second : Z := 1000000000.

(** What the instance does to the world outside its own fields. *)
Inductive Event : Set :=
  | EvRefreshKeys      (* a call of authProvider.RefreshKeys *)
  | EvNewTicker        (* time.NewTicker *)
  | EvTickerStop       (* Ticker.Stop *)
  | EvGoRefreshLoop    (* the go statement of Start *)
  | EvChanClose        (* close(errorChan) *)
  | EvChanReceive.     (* a value taken from errorChan *)

Definition Event_eqb (x y : Event) : bool :=
  match x, y with
  | EvRefreshKeys, EvRefreshKeys
  | EvNewTicker, EvNewTicker
  | EvTickerStop, EvTickerStop
  | EvGoRefreshLoop, EvGoRefreshLoop
  | EvChanClose, EvChanClose
  | EvChanReceive, EvChanReceive => true
  | _, _ => false
  end.

Fixpoint count_event (e : Event) (l : list Event) : nat :=
  match l with
  | [] => 0
  | x :: l' => (if Event_eqb x e then 1 else 0) + count_event e l'
  end.

(** The struct [Auth] of [structs.go]; [start] is the done flag of the
    [sync.Once], and [log] (not a field of the Go struct) records the events
    of the instance, newest first. *)
Record Auth : Type := mkAuth {
  authProvider : AuthProvider;
  errorChan : Chan;
  keys : gmap string Key;
  nextAccessTokenRefresh : option Time;
  nextKeyRefresh : Time;
  refreshAccessTokenTicker : option Ticker;
  refreshKeysTicker : option Ticker;
  start : bool;
  log : list Event
}.

Definition emit (e : Event) (a : Auth) : Auth :=
  mkAuth (authProvider a) (errorChan a) (keys a) (nextAccessTokenRefresh a)
    (nextKeyRefresh a) (refreshAccessTokenTicker a) (refreshKeysTicker a)
    (start a) (e :: log a).

Definition set_keys (next : Time) (m : gmap string Key) (a : Auth) : Auth :=
  mkAuth (authProvider a) (errorChan a) m (nextAccessTokenRefresh a)
    next (refreshAccessTokenTicker a) (refreshKeysTicker a)
    (start a) (log a).

Definition set_errorChan (c : Chan) (a : Auth) : Auth :=
  mkAuth (authProvider a) c (keys a) (nextAccessTokenRefresh a)
    (nextKeyRefresh a) (refreshAccessTokenTicker a) (refreshKeysTicker a)
    (start a) (log a).

Definition set_refreshKeysTicker (t : option Ticker) (a : Auth) : Auth :=
  mkAuth (authProvider a) (errorChan a) (keys a) (nextAccessTokenRefresh a)
    (nextKeyRefresh a) (refreshAccessTokenTicker a) t
    (start a) (log a).

Definition set_started (tk ta : option Ticker) (a : Auth) : Auth :=
  mkAuth (authProvider a) (errorChan a) (keys a) (nextAccessTokenRefresh a)
    (nextKeyRefresh a) ta tk true (log a).

Record Config : Type := mkConfig {
  Config_AuthProvider : option AuthProvider
}.

(** [Config.Validate] *)
Definition Config_Validate (c : Config) : option error :=
  match Config_AuthProvider c with
  | None => Some (Errorf "an AuthProvider is required")
  | Some _ => None
  end.

(** The zero [time.Time], which [nextKeyRefresh] holds until the first
    refresh. *)
Definition zeroTime : Time := (-62135596800 * Second)%Z.

(** [New]: a nil context and a config without a provider are refused;
    [fresh_chan] names the channel that [make] allocates. *)
Definition New (ctx : option unit) (config : Config) (fresh_chan : nat)
    : option Auth * option error :=
  match ctx with
  | None => (None, Some (Errorf "context cannot be nil"))
  | Some _ =>
      match Config_AuthProvider config with
      | None =>
          (None, Some (Wrapf "invalid config" (Errorf "an AuthProvider is required")))
      | Some p =>
          (Some (mkAuth p (mkChan fresh_chan false []) ∅ None zeroTime None None
                   false []),
           None)
      end
  end.

(** ** [internal.go]: the key cache *)

(** [keyWithID]: the lookup [a.keys[id]] under the read lock. *)
Definition keyWithID (a : Auth) (id : string) : option Key := keys a !! id.

(** The loop of [refreshKeys] over the batch: the first key that fails
    [Validate] ends it with that error, every other key is stored under its
    [Kid]. *)
Fixpoint build_keyMap (batch : list Key) (keyMap : gmap string Key)
    : error + gmap string Key :=
  match batch with
  | [] => inr keyMap
  | key :: rest =>
      match Key_Validate key with
      | Some err => inl (Wrapf "key is invalid" err)
      | None => build_keyMap rest (<[Kid key := key]> keyMap)
      end
  end.

(** The last key of a batch whose [Kid] is [id], if there is one. *)
Definition last_with_id (id : string) (batch : list Key) : option Key :=
  find (fun k => String.eqb (Kid k) id) (rev batch).

Definition refreshKeys (a : Auth) : Auth * option error :=
  let '(batch, nextRefresh, err) :=
    RefreshKeys (authProvider a) (count_event EvRefreshKeys (log a)) in
  let a := emit EvRefreshKeys a in
  match err with
  | Some e => (a, Some (Wrapf "authProvider failed to refresh keys" e))
  | None =>
      match build_keyMap batch ∅ with
      | inl e => (a, Some e)
      | inr keyMap => (set_keys nextRefresh keyMap a, None)
      end
  end.

(** *** [awaitKey] *)

(** While [awaitKey] waits, other goroutines change the instance.  A
    [Timeline] gives what the caller observes at its poll number i, which
    takes place i seconds after the call: the instance when the lookup takes
    the read lock, the instance when the read lock is taken again for
    [nextKeyRefresh], and the reading of [time.Now()]. *)
Record Timeline : Type := mkTimeline {
  atLookup : nat -> Auth;
  atCheck : nat -> Auth;
  nowAt : nat -> Time
}.

Inductive SelectCase : Set :=
  | TickerC      (* case <-ticker.C *)
  | TimeoutC.    (* case <-timeout *)

(** [maxWaitDuration], in ticks of the one-second ticker. *)
Definition maxWaitDuration : nat := 5.

(** The [select] of [awaitKey] when [remaining] seconds are left until the
    timeout: the ticker fires first while more than a second is left; the
    fifth tick and the timeout are due together and [race] says which of them
    the select takes; once the timeout has fired it is the case taken. *)
Definition select_wait (race : SelectCase) (remaining : nat) : SelectCase :=
  match remaining with
  | 0 => TimeoutC
  | 1 => race
  | _ => TickerC
  end.

(** The [for] loop of [awaitKey]; the third component of the result is the
    number of seconds spent waiting. *)
Fixpoint awaitKey_loop (tl : Timeline) (race : SelectCase) (kid : string)
    (remaining elapsed : nat) : option Key * bool * nat :=
  match keyWithID (atLookup tl elapsed) kid with
  | Some key => (Some key, true, elapsed)
  | None =>
      let isRefreshing :=
        Time_After (nowAt tl elapsed) (nextKeyRefresh (atCheck tl elapsed)) in
      if negb isRefreshing then (None, false, elapsed)
      else
        match remaining with
        | 0 => (None, false, elapsed)
        | S remaining' =>
            match select_wait race remaining with
            | TickerC => awaitKey_loop tl race kid remaining' (S elapsed)
            | TimeoutC => (None, false, S elapsed)
            end
        end
  end.

Definition awaitKey (tl : Timeline) (race : SelectCase) (kid : string)
    : option Key * bool * nat :=
  awaitKey_loop tl race kid maxWaitDuration 0.

(** What poll number [i] of [awaitKey] observes: the result of the lookup, and
    whether a refresh is due ([time.Now()] is after [nextKeyRefresh]). *)
Definition lookupAt (tl : Timeline) (kid : string) (i : nat) : option Key :=
  keyWithID (atLookup tl i) kid.

Definition isRefreshingAt (tl : Timeline) (i : nat) : bool :=
  Time_After (nowAt tl i) (nextKeyRefresh (atCheck tl i)).

(** The polls [from], ..., [upto - 1] all miss while a refresh is due. *)
Definition pending (tl : Timeline) (kid : string) (from upto : nat) : Prop :=
  forall i, from <= i < upto ->
    lookupAt tl kid i = None /\ isRefreshingAt tl i = true.

(** *** [shutdown] *)

Inductive outcome (A : Type) : Type :=
  | Returned (v : A) (a : Auth)
  | Panicked (msg : string) (a : Auth).

Arguments Returned {A} v a.
Arguments Panicked {A} msg a.

(** A receive that does not block: from a closed channel it yields the zero
    value, from an open one the value of a blocked sender if there is one. *)
Definition chan_try_recv (c : Chan) : option (option error * Chan) :=
  if chan_closed c then Some (None, c)
  else
    match chan_senders c with
    | e :: rest => Some (Some e, mkChan (chan_id c) false rest)
    | [] => None
    end.

(** [close(c)] panics on a closed channel. *)
Definition chan_close (c : Chan) : option Chan :=
  if chan_closed c then None
  else Some (mkChan (chan_id c) true (chan_senders c)).

(** [c <- e] on an unbuffered channel: the sender blocks until its value is
    received; on a closed channel it panics. *)
Definition chan_send (e : error) (c : Chan) : option Chan :=
  if chan_closed c then None
  else Some (mkChan (chan_id c) false (chan_senders c ++ [e])%list).

Definition shutdown (a : Auth) : outcome (option error) :=
  let a :=
    match refreshKeysTicker a with
    | Some _ => set_refreshKeysTicker None (emit EvTickerStop a)
    | None => a
    end in
  match chan_try_recv (errorChan a) with
  | Some (_, c) => Returned None (emit EvChanReceive (set_errorChan c a))
  | None =>
      match chan_close (errorChan a) with
      | Some c => Returned None (emit EvChanClose (set_errorChan c a))
      | None => Panicked "close of closed channel" a
      end
  end.

(** Two calls in sequence. *)
Definition shutdown_twice (a : Auth) : outcome (option error) :=
  match shutdown a with
  | Returned _ a' => shutdown a'
  | Panicked msg a' => Panicked msg a'
  end.

(** ** [auth.go]: [Start] *)

(** The body of [start.Do]: two tickers and the go statement. *)
Definition start_body (a : Auth) : Auth :=
  emit EvGoRefreshLoop
    (emit EvNewTicker
       (emit EvNewTicker
          (set_started (Some (mkTicker Second)) (Some (mkTicker Second)) a))).

Definition Start (a : Auth) : Auth * Chan :=
  let a := if start a then a else start_body a in
  (a, errorChan a).

(** [n] calls in sequence, with the channels they return (first call
    first). *)
Fixpoint Start_calls (n : nat) (a : Auth) : Auth * list Chan :=
  match n with
  | 0 => (a, [])
  | S n' =>
      let '(a1, c) := Start a in
      let '(a2, cs) := Start_calls n' a1 in
      (a2, c :: cs)
  end.

(** What the goroutine launched by [Start] does before it enters its loop:
    one key refresh, whose error, if any, is sent on the error channel. *)
Definition refreshLoop_init (a : Auth) : outcome unit :=
  let '(a, err) := refreshKeys a in
  match err with
  | None => Returned tt a
  | Some e =>
      match chan_send e (errorChan a) with
      | Some c => Returned tt (set_errorChan c a)
      | None => Panicked "send on closed channel" a
      end
  end.

Definition outcome_auth {A : Type} (o : outcome A) : Auth :=
  match o with
  | Returned _ a => a
  | Panicked _ a => a
  end.

(** Every goroutine launched so far runs its prologue. *)
Fixpoint run_launched (n : nat) (a : Auth) : Auth :=
  match n with
  | 0 => a
  | S n' => run_launched n' (outcome_auth (refreshLoop_init a))
  end.

(** ** golang-jwt (external) and [validateJWT] *)

(** A decoded JSON value, as [encoding/json] stores it in an [interface{}]. *)
Inductive JSONValue : Type :=
  | JString (s : string)
  | JNumber (n : Z)
  | JBool (b : bool)
  | JNull
  | JArray (elems : list JSONValue)
  | JObject (fields : list (string * JSONValue)).

(** [jwt.Token], as far as [validateJWT] reads it. *)
Record jwt_Token : Type := mkToken {
  Raw : string;
  Token_Header : gmap string JSONValue;
  Valid : bool
}.

(** The parts of golang-jwt (v5) that depend on encodings, cryptography and
    the clock are parameters of the model:
    - [decodeSegments]: the header of a token string made of three
      dot-separated segments whose header and claims segments decode from
      base64url and JSON; [None] for any other string;
    - [GetSigningMethod]: whether a signing method is registered under a name;
    - [decodeSignature]: whether the third segment decodes from base64url;
    - [ParseRSAPublicKeyFromPEM];
    - [Verify]: the signature check of the token's signing method with a key;
    - [validateClaims]: the check of the registered claims at the time of
      the call, whose error joins [ErrTokenExpired] and the like. *)
Record JWTLibrary : Type := mkJWTLibrary {
  PublicKey : Type;
  decodeSegments : string -> option (gmap string JSONValue);
  GetSigningMethod : string -> bool;
  decodeSignature : string -> bool;
  ParseRSAPublicKeyFromPEM : string -> error + PublicKey;
  Verify : string -> PublicKey -> option error;
  validateClaims : string -> option error
}.

(** [Parser.ParseUnverified] of golang-jwt: the segments are decoded, then
    the signing method named by the header [alg] is looked up; a header
    without a string [alg], or with one that names no registered method, is
    refused here. *)
Definition jwt_ParseUnverified (lib : JWTLibrary) (tokenString : string)
    : error + jwt_Token :=
  match decodeSegments lib tokenString with
  | None => inl (Joined "token is malformed" [Sentinel ErrTokenMalformed])
  | Some header =>
      match header !! "alg" with
      | Some (JString method) =>
          if GetSigningMethod lib method
          then inr (mkToken tokenString header false)
          else inl (Joined "signing method (alg) is unavailable"
                      [Sentinel ErrTokenUnverifiable])
      | _ => inl (Joined "signing method (alg) is unspecified"
                    [Sentinel ErrTokenUnverifiable])
      end
  end.

(** [jwt.Parse] of golang-jwt: [ParseUnverified], the signature segment, the
    key function, the signature, the claims.  An error of the key function is
    joined with [ErrTokenUnverifiable], so that [errors.Is] finds it. *)
Definition jwt_Parse (lib : JWTLibrary) (tokenString : string)
    (keyFunc : jwt_Token -> error + PublicKey lib) : error + jwt_Token :=
  match jwt_ParseUnverified lib tokenString with
  | inl e => inl e
  | inr token =>
      if negb (decodeSignature lib tokenString)
      then inl (Joined "could not base64 decode signature"
                  [Sentinel ErrTokenMalformed])
      else
        match keyFunc token with
        | inl e => inl (Joined "error while executing keyfunc"
                          [Sentinel ErrTokenUnverifiable; e])
        | inr key =>
            match Verify lib tokenString key with
            | Some e => inl (Joined "" [Sentinel ErrTokenSignatureInvalid; e])
            | None =>
                match validateClaims lib tokenString with
                | Some e => inl (Joined "" [Sentinel ErrTokenInvalidClaims; e])
                | None => inr (mkToken (Raw token) (Token_Header token) true)
                end
            end
        end
  end.

(** A token string that golang-jwt hands to the key function: its segments
    decode, its header names a registered signing method, its signature
    segment decodes. *)
Definition reaches_keyFunc (lib : JWTLibrary) (tokenString : string)
    (header : gmap string JSONValue) (alg : string) : Prop :=
  decodeSegments lib tokenString = Some header
  /\ header !! "alg" = Some (JString alg)
  /\ GetSigningMethod lib alg = true
  /\ decodeSignature lib tokenString = true.

(** The type assertion [token.Header[name].(string)]. *)
Definition header_string (token : jwt_Token) (name : string) : option string :=
  match Token_Header token !! name with
  | Some (JString s) => Some s
  | _ => None
  end.

(** The key function that [validateJWT] hands to [jwt.Parse]. *)
Definition keyFunc (lib : JWTLibrary) (tl : Timeline) (race : SelectCase)
    (token : jwt_Token) : error + PublicKey lib :=
  match header_string token "alg" with
  | None => inl (Sentinel errorAlgMissing)
  | Some alg =>
      if String.eqb alg "" then inl (Sentinel errorAlgMissing)
      else
        match header_string token "kid" with
        | None => inl (Sentinel errorKidMissing)
        | Some kid =>
            if String.eqb kid "" then inl (Sentinel errorKidMissing)
            else
              match awaitKey tl race kid with
              | (Some key, true, _) =>
                  if negb (String.eqb (GoStrings.ToLower (Alg key))
                             (GoStrings.ToLower alg))
                  then inl (Sentinel errorAlgInvalid)
                  else
                    match ParseRSAPublicKeyFromPEM lib (Pem key) with
                    | inl err =>
                        inl (Wrapf "failed to parse RSA public key from key.pem" err)
                    | inr publicKey => inr publicKey
                    end
              | _ => inl (Sentinel errorKeyNotFound)
              end
        end
  end.

(** The [switch] of [validateJWT] over the error of [jwt.Parse]. *)
Definition classify (err : error) : bool * string * option error :=
  if errors_Is err ErrTokenExpired then (false, "token is expired", None)
  else if errors_Is err ErrTokenMalformed then (false, "token is malformed", None)
  else if errors_Is err ErrTokenNotValidYet then (false, "token is not valid yet", None)
  else if errors_Is err ErrTokenSignatureInvalid then (false, "token signature is invalid", None)
  else if errors_Is err ErrTokenUsedBeforeIssued then (false, "token used before being issued", None)
  else if errors_Is err errorAlgInvalid then (false, "value for 'alg' header is invalid", None)
  else if errors_Is err errorAlgMissing then (false, "token header is missing an 'alg' value", None)
  else if errors_Is err errorKidMissing then (false, "token header is missing a 'kid' value", None)
  else if errors_Is err errorKeyNotFound then (false, "key not found", None)
  else (false, "", Some err).

Definition validateJWT (lib : JWTLibrary) (tl : Timeline) (race : SelectCase)
    (tokenString : string) : bool * string * option error :=
  match jwt_Parse lib tokenString (keyFunc lib tl race) with
  | inl err => classify err
  | inr token =>
      if negb (Valid token) then (false, "token is not valid", None)
      else (true, "", None)
  end.

(** ** [auth.go]: [Authenticate] and [Authorize] *)

Definition Authenticate (lib : JWTLibrary) (tl : Timeline) (race : SelectCase)
    (r : option Request) : bool * string * option error :=
  match r with
  | None => (false, "", Some (Errorf "request is nil"))
  | Some r =>
      let authHeader := Header_Get (Header r) "Authorization" in
      if String.eqb authHeader "" then
        (false, "missing authorization header", None)
      else if negb (GoStrings.HasPrefix (GoStrings.ToLower authHeader) "bearer ") then
        (false, "malformed authorization header", None)
      else
        let token := GoStrings.TrimSpace (GoStrings.slice_from 7 authHeader) in
        if String.eqb token "" then (false, "missing bearer token", None)
        else
          match validateJWT lib tl race token with
          | (_, _, Some err) => (false, "", Some (Wrapf "failed to validate jwt" err))
          | (isValid, reason, None) => (isValid, reason, None)
          end
  end.

(** [Authorize]: a nil request is an error, any other request is handed to
    the provider together with the requirement.  ([auth.go] declares the
    second parameter as a string named permission and only forwards it; the
    endpoint registration and the provider interface it is written against
    pass an [AuthRequirements], which is the type taken here.) *)
Definition Authorize (a : Auth) (r : option Request)
    (requirements : AuthRequirements) : bool * option error :=
  match r with
  | None => (false, Some (Errorf "request is nil"))
  | Some r => AuthorizeRequest (authProvider a) r requirements
  end.

(** ** Package [service]: [AddAuthenticatedEndpoint] *)

(** The loop of the wrapped handler over the variadic [authRequirements]. *)
Definition add_requirement (requirements r : AuthRequirements) : AuthRequirements :=
  mkAuthRequirements
    (AnyRole requirements ++ AnyRole r)%list
    (AllPermissions requirements ++ AllPermissions r)%list.

Definition aggregate (authRequirements : list AuthRequirements) : AuthRequirements :=
  fold_left add_requirement authRequirements (mkAuthRequirements [] []).

(** What the wrapped handler sends: a status with a message, or the response
    of the endpoint's own handler. *)
Inductive Sent (Resp : Type) : Type :=
  | Status (code : Z) (message : string)
  | Handled (resp : Resp).

Arguments Status {Resp} code message.
Arguments Handled {Resp} resp.

Definition wrappedHandler {Resp : Type} (lib : JWTLibrary) (tl : Timeline)
    (race : SelectCase) (a : Auth) (handler : Request -> option Resp)
    (authRequirements : list AuthRequirements) (r : Request) : Sent Resp :=
  match Authenticate lib tl race (Some r) with
  | (_, _, Some _) => Status 500 "internal server error"
  | (false, reason, None) =>
      Status 401
        (if String.eqb reason "" then "unauthorized"
         else String.append "unauthorized" (String.append ": " reason))
  | (true, _, None) =>
      let requirements := aggregate authRequirements in
      match Authorize a (Some r) requirements with
      | (_, Some _) => Status 500 "internal server error"
      | (false, None) => Status 403 "forbidden"
      | (true, None) =>
          match handler r with
          | None => Status 500 "internal server error"
          | Some resp => Handled resp
          end
      end
  end.

(** ** Concrete instances used in the examples *)

Module Examples.

Definition k1 : Key :=
  mkKey "k1" 1700000000 1800000000 "RS256" "-----BEGIN PUBLIC KEY-----".

Definition k2 : Key :=
  mkKey "k2" 1700000000 1800000000 "RS256" "-----BEGIN PUBLIC KEY-----".

(** A key without [pem]: it fails [Key.Validate]. *)
Definition k_bad : Key := mkKey "k3" 1700000000 1800000000 "RS256" "".

(** A provider that authorizes a request when the role [admin] is among the
    roles of the requirement, whose first answer to [RefreshKeys] is the single key [k1],
    whose second answer has a malformed key after a good one, and which
    fails from then on. *)
Definition provider : AuthProvider :=
  mkAuthProvider
    (fun _ requirements =>
       (existsb (String.eqb "admin") (AnyRole requirements), None))
    (fun _ => false)
    (fun _ => (None, 0%Z, Some (Errorf "no token")))
    (fun n =>
       match n with
       | 0 => ([k1], 2000%Z, None)
       | 1 => ([k2; k_bad], 3000%Z, None)
       | _ => ([], 0%Z, Some (Errorf "provider is down"))
       end).

(** The instance that [New] makes for this provider. *)
Definition fresh : Auth :=
  match New (Some tt) (mkConfig (Some provider)) 0 with
  | (Some a, _) => a
  | (None, _) => mkAuth provider (mkChan 0 true []) ∅ None zeroTime None None false []
  end.

(** The instance after a first successful key refresh. *)
Definition loaded : Auth := fst (refreshKeys fresh).

(** Nothing changes while the caller waits, and the clock reads [now]. *)
Definition still (a : Auth) (now : Time) : Timeline :=
  mkTimeline (fun _ => a) (fun _ => a) (fun _ => now).

(** A refresh that started before the call installs its batch [at] seconds
    after it. *)
Definition refreshed_after (a : Auth) (at_second : nat) (now : Time) : Timeline :=
  let a' := fun i => if (at_second <=? i)%nat then fst (refreshKeys a) else a in
  mkTimeline a' a' (fun i => (now + Z.of_nat i * Second)%Z).

(** Token strings with the header they decode to; the claims segment is the
    empty object and the signature segment the bytes [sig]. *)
Definition tok_HS256_k1 : string := "eyJhbGciOiJIUzI1NiIsImtpZCI6ImsxIn0.e30.c2ln".
Definition tok_RS256_k1 : string := "eyJhbGciOiJSUzI1NiIsImtpZCI6ImsxIn0.e30.c2ln".
Definition tok_no_alg : string := "eyJraWQiOiJrMSJ9.e30.c2ln".
Definition tok_empty_alg : string := "eyJhbGciOiIiLCJraWQiOiJrMSJ9.e30.c2ln".
Definition tok_no_kid : string := "eyJhbGciOiJSUzI1NiJ9.e30.c2ln".

Definition headers : list (string * list (string * JSONValue)) :=
  [ (tok_HS256_k1, [("alg", JString "HS256"); ("kid", JString "k1")]);
    (tok_RS256_k1, [("alg", JString "RS256"); ("kid", JString "k1")]);
    (tok_no_alg, [("kid", JString "k1")]);
    (tok_empty_alg, [("alg", JString ""); ("kid", JString "k1")]);
    (tok_no_kid, [("alg", JString "RS256")]) ].

Fixpoint assoc {A : Type} (k : string) (l : list (string * A)) : option A :=
  match l with
  | [] => None
  | (k', v) :: l' => if String.eqb k k' then Some v else assoc k l'
  end.

Definition methods : list string :=
  ["HS256"; "HS384"; "HS512"; "RS256"; "RS384"; "RS512"; "PS256"; "PS384";
   "PS512"; "ES256"; "ES384"; "ES512"; "EdDSA"; "none"].

(** A library that decodes the token strings above, has the signing methods
    golang-jwt registers, reads any PEM text as a key and accepts the
    signature of [tok_RS256_k1] only. *)
Definition library : JWTLibrary :=
  mkJWTLibrary string
    (fun s =>
       match assoc s headers with
       | Some fields => Some (list_to_map fields)
       | None => None
       end)
    (fun name => existsb (String.eqb name) methods)
    (fun s => match assoc s headers with Some _ => true | None => false end)
    (fun pem =>
       if GoStrings.HasPrefix pem "-----BEGIN" then inr pem
       else inl (Errorf "invalid key: Key must be a PEM encoded PKCS1 or PKCS8 key"))
    (fun s _ =>
       if String.eqb s tok_RS256_k1 then None
       else Some (Errorf "crypto/rsa: verification error"))
    (fun _ => None).

Definition bearer (tok : string) : Request :=
  mkRequest {[ "Authorization" := [String.append "Bearer " tok] ]}.

End Examples.

(** ** Further code of the [auth] and [service] packages *)

(** *** [auth.go]: [ExtractBearerToken] *)

(** The request is dereferenced without a nil check, so the model takes a
    request that is there. *)
Definition ExtractBearerToken (r : Request) : string * bool :=
  let authHeader := Header_Get (Header r) "Authorization" in
  if String.eqb authHeader "" then ("", false)
  else if negb (GoStrings.HasPrefix (GoStrings.ToLower authHeader) "bearer ") then
    ("", false)
  else
    let token := GoStrings.TrimSpace (GoStrings.slice_from 7 authHeader) in
    if (String.length token =? 0)%nat then ("", false) else (token, true).

(** *** [auth.go]: the authenticated transport *)

(** [h.Set(key, value)] for a key already in canonical form: the values
    stored under the key are replaced by the single new one. *)
Definition Header_Set (h : gmap string (list string)) (key value : string)
    : gmap string (list string) :=
  <[key := [value]]> h.

(** What the [select] of [getAccessTokenWithTimeout] receives: the result of
    the refresh that the goroutine waits for, or the timeout. *)
Inductive RefreshWait : Type :=
  | RefreshResult (v : option AccessToken) (err : option error)
  | WaitTimeout.

(** [getAccessTokenWithTimeout].  [cached] is the answer of
    [ac.auth.getAccessToken()]; when it is a miss, [wait] is what the select
    receives. *)
Definition getAccessTokenWithTimeout (cached : option AccessToken * bool)
    (wait : RefreshWait) : option AccessToken * option error :=
  match cached with
  | (token, true) => (token, None)
  | (_, false) =>
      match wait with
      | RefreshResult _ (Some err) => (None, Some err)
      | RefreshResult v None => (v, None)
      | WaitTimeout => (None, Some (Errorf "timeout waiting for token refresh"))
      end
  end.

(** [AuthClient]: the underlying round tripper, which may be nil. *)
Record AuthClient (Resp : Type) : Type := mkAuthClient {
  roundTripper : option (Request -> option Resp * option error)
}.

Arguments mkAuthClient {Resp} roundTripper.
Arguments roundTripper {Resp} a.

(** What a call of [RoundTrip] leaves behind: the request as the caller finds
    it afterwards (its header is written in place), whether it was handed to
    the underlying round tripper, what is returned, and whether the body of
    the request has been closed. *)
Record RoundTripResult (Resp : Type) : Type := mkRoundTripResult {
  rt_request : Request;
  rt_forwarded : bool;
  rt_response : option Resp;
  rt_err : option error;
  rt_body_closed : bool
}.

Arguments mkRoundTripResult {Resp} rt_request rt_forwarded rt_response rt_err rt_body_closed.
Arguments rt_request {Resp} r.
Arguments rt_forwarded {Resp} r.
Arguments rt_response {Resp} r.
Arguments rt_err {Resp} r.
Arguments rt_body_closed {Resp} r.

(** [AuthClient.RoundTrip]; [hasBody] says whether [r.Body] is not nil.  The
    deferred function closes the body on every path. *)
Definition RoundTrip {Resp : Type} (ac : AuthClient Resp)
    (cached : option AccessToken * bool) (wait : RefreshWait)
    (r : Request) (hasBody : bool) : RoundTripResult Resp :=
  match getAccessTokenWithTimeout cached wait with
  | (_, Some err) =>
      mkRoundTripResult r false None
        (Some (Wrapf "failed to get an access token" err)) hasBody
  | (None, None) =>
      mkRoundTripResult r false None
        (Some (Errorf "an access token was expected but not received")) hasBody
  | (Some accessToken, None) =>
      if (String.length (Token accessToken) =? 0)%nat then
        mkRoundTripResult r false None
          (Some (Errorf "an access token was expected but not received")) hasBody
      else
        let r' :=
          mkRequest
            (Header_Set (Header r) "Authorization"
               (String.append "Bearer " (Token accessToken))) in
        match roundTripper ac with
        | None =>
            mkRoundTripResult r' false None
              (Some (Errorf "roundTripper is not initialized")) hasBody
        | Some rt =>
            let '(resp, err) := rt r' in
            mkRoundTripResult r' true resp err hasBody
        end
  end.

(** *** [auth.go]: the loop of the goroutine that [Start] launches *)

Inductive LoopEvent : Type :=
  | AccessTokenTick (now : Time)   (* case <-a.refreshAccessTokenTicker.C *)
  | KeysTick (now : Time)          (* case <-a.refreshKeysTicker.C *)
  | CtxDone.                       (* case <-a.ctx.Done() *)

Inductive LoopStatus : Set :=
  | Continue
  | Exit.

(** One turn of the [for] loop, for the case that the [select] takes; [now]
    is the reading of [time.Now()] in that case.  [refreshAccessToken] stands
    for the method of that name.  When the goroutine returns (or panics), the
    deferred [Stop] of the key ticker runs. *)
Definition refreshLoop_step (refreshAccessToken : Auth -> Auth)
    (ev : LoopEvent) (a : Auth) : outcome LoopStatus :=
  match ev with
  | AccessTokenTick now =>
      match nextAccessTokenRefresh a with
      | Some t =>
          if Time_Before t now then Returned Continue (refreshAccessToken a)
          else Returned Continue a
      | None => Returned Continue a
      end
  | KeysTick now =>
      if Time_After now (nextKeyRefresh a) then
        let '(a, err) := refreshKeys a in
        match err with
        | None => Returned Continue a
        | Some e =>
            match chan_send e (errorChan a) with
            | Some c => Returned Continue (set_errorChan c a)
            | None => Panicked "send on closed channel" (emit EvTickerStop a)
            end
        end
      else Returned Continue a
  | CtxDone =>
      match shutdown a with
      | Returned _ a' => Returned Exit (emit EvTickerStop a')
      | Panicked msg a' => Panicked msg (emit EvTickerStop a')
      end
  end.

(** The consumer of the error channel receives the value of the sender that
    waits on it, if there is one. *)
Definition consumer_receive (a : Auth) : Auth :=
  match chan_try_recv (errorChan a) with
  | Some (_, c) => set_errorChan c a
  | None => a
  end.

(** [n] key refreshes in sequence. *)
Fixpoint refreshes (n : nat) (a : Auth) : Auth :=
  match n with
  | 0 => a
  | S n' => refreshes n' (fst (refreshKeys a))
  end.

(** Every cached key is stored under its own [Kid] and has all five fields
    set. *)
Definition cache_valid (a : Auth) : Prop :=
  forall (id : string) (k : Key),
    keyWithID a id = Some k ->
    Kid k = id /\ Kid k <> "" /\ Iat k <> 0%Z /\ Exp k <> 0%Z
    /\ Alg k <> "" /\ Pem k <> "".

(** *** Package [service]: [AddServiceEndpoint] *)

Definition wrappedHandler_service {Resp : Type} (lib : JWTLibrary) (tl : Timeline)
    (race : SelectCase) (a : Auth) (handler : Request -> option Resp)
    (authRequirements : list AuthRequirements) (r : Request) : Sent Resp :=
  match Authenticate lib tl race (Some r) with
  | (_, _, Some _) => Status 500 "internal server error"
  | (false, reason, None) =>
      Status 401
        (if String.eqb reason "" then "unauthorized"
         else String.append "unauthorized" (String.append ": " reason))
  | (true, _, None) =>
      if negb (IsServiceRequest (authProvider a) r) then
        Status 403 "forbidden: restricted to services"
      else
        let requirements := aggregate authRequirements in
        match Authorize a (Some r) requirements with
        | (_, Some _) => Status 500 "internal server error"
        | (false, None) => Status 403 "forbidden"
        | (true, None) =>
            match handler r with
            | None => Status 501 "internal server error"
            | Some resp => Handled resp
            end
        end
  end.

(** The reasons that [Authenticate] can return. *)
Definition client_reasons : list string :=
  [ "missing authorization header";
    "malformed authorization header";
    "missing bearer token";
    "token is expired";
    "token is malformed";
    "token is not valid yet";
    "token signature is invalid";
    "token used before being issued";
    "value for 'alg' header is invalid";
    "token header is missing an 'alg' value";
    "token header is missing a 'kid' value";
    "key not found";
    "token is not valid" ].

(** *** Package [service]: [ParseClaimsFromRequest] *)

(** [strings.Split(s, sep)] for a separator of one byte. *)
Fixpoint Split (sep : ascii) (s : string) : list string :=
  match s with
  | EmptyString => [EmptyString]
  | String c s' =>
      if Ascii.eqb c sep then EmptyString :: Split sep s'
      else
        match Split sep s' with
        | p :: ps => String c p :: ps
        | [] => [String c EmptyString]
        end
  end.

(** [ParseClaimsFromRequest]: [decode] is [base64.RawURLEncoding.DecodeString]
    and [unmarshal] is [json.Unmarshal] into the claims of the caller. *)
Definition ParseClaimsFromRequest {Claims : Type}
    (decode : string -> error + string) (unmarshal : string -> error + Claims)
    (r : Request) : error + Claims :=
  match ExtractBearerToken r with
  | (_, false) => inl (Errorf "failed to extract bearer token")
  | (token, true) =>
      match Split "."%char token with
      | [_; payload; _] =>
          match decode payload with
          | inl err => inl (Wrapf "failed to decode payload" err)
          | inr decoded =>
              match unmarshal decoded with
              | inl err => inl (Wrapf "failed to unmarshal claims" err)
              | inr claims => inr claims
              end
          end
      | _ => inl (Errorf "invalid JWT token format")
      end
  end.

(** Whether a string begins with a white-space rune, and whether a reversed
    string does (the tests of [TrimLeft] and [TrimLeft_rev]). *)
Definition leadSpace (s : string) : bool :=
  match s with
  | EmptyString => false
  | String c s1 =>
      GoStrings.isSpace c
      || match s1 with
         | EmptyString => false
         | String d s2 =>
             GoStrings.isSpace2 c d
             || match s2 with
                | EmptyString => false
                | String e _ => GoStrings.isSpace3 c d e
                end
         end
  end.

Definition leadSpace_rev (s : string) : bool :=
  match s with
  | EmptyString => false
  | String e s1 =>
      GoStrings.isSpace e
      || match s1 with
         | EmptyString => false
         | String d s2 =>
             GoStrings.isSpace2 d e
             || match s2 with
                | EmptyString => false
                | String c _ => GoStrings.isSpace3 c d e
                end
         end
  end.

(** Whether a byte occurs in a string. *)
Fixpoint hasByte (c : ascii) (s : string) : bool :=
  match s with
  | EmptyString => false
  | String x s' => Ascii.eqb x c || hasByte c s'
  end.

(** The token string made of three segments. *)
Definition three_segments (h p sig : string) : string :=
  String.append h (String "." (String.append p (String "." sig))).

(** * Properties *)

(** ** Strings and errors *)

Lemma HasPrefix_length (p s : string) :
  GoStrings.HasPrefix s p = true -> String.length p <= String.length s.
Proof.
  revert s. induction p as [|c p IH]; intros s H; simpl in *; [lia|].
  destruct s as [|d s]; [discriminate|].
  apply andb_prop in H as [_ H]. apply IH in H. simpl. lia.
Qed.

(** The slice [authHeader[7:]] of [Authenticate] is in range. *)
Lemma bearer_slice_in_range (h : string) :
  GoStrings.HasPrefix (GoStrings.ToLower h) "bearer " = true ->
  7 <= String.length h.
Proof.
  intros H. apply HasPrefix_length in H.
  assert (L : forall s, String.length (GoStrings.ToLower s) = String.length s).
  { induction s as [|c s IH]; simpl; congruence. }
  rewrite L in H. exact H.
Qed.

Lemma allSpace_TrimLeft (s : string) :
  GoStrings.allSpace s = true -> GoStrings.TrimLeft s = "".
Proof.
  induction s as [|c s IH]; simpl; [reflexivity|].
  intros H. apply andb_prop in H as [Hc Hs]. rewrite Hc. auto.
Qed.

Lemma allSpace_TrimSpace (s : string) :
  GoStrings.allSpace s = true -> GoStrings.TrimSpace s = "".
Proof.
  intros H. unfold GoStrings.TrimSpace. rewrite (allSpace_TrimLeft s H).
  reflexivity.
Qed.

Lemma sentinel_eqb_refl (s : sentinel) : sentinel_eqb s s = true.
Proof. destruct s; reflexivity. Qed.

Example TrimSpace_ascii :
  GoStrings.TrimSpace "  eyJ.e30.c2ln   " = "eyJ.e30.c2ln".
Proof. reflexivity. Qed.

(** A no-break space (U+00A0) in front and an ideographic space (U+3000) at
    the end are trimmed; one in the middle stays. *)
Example TrimSpace_unicode :
  let nbsp := String (ascii_of_nat 194) (String (ascii_of_nat 160) "") in
  let wide :=
    String (ascii_of_nat 227) (String (ascii_of_nat 128) (String (ascii_of_nat 128) "")) in
  GoStrings.TrimSpace
    (String.append nbsp (String.append "a" (String.append nbsp (String.append "b" wide))))
  = String.append "a" (String.append nbsp "b").
Proof. reflexivity. Qed.

Example ToLower_scheme : GoStrings.ToLower "BeArEr x.Y.z" = "bearer x.y.z".
Proof. reflexivity. Qed.

(** An error of the key function is found by [errors.Is] inside the error of
    [jwt.Parse]; the sentinel that wraps it is none of those the switch of
    [validateJWT] looks for. *)
Lemma errors_Is_keyfunc (s target : sentinel) :
  errors_Is (Joined "error while executing keyfunc"
               [Sentinel ErrTokenUnverifiable; Sentinel s]) target
  = sentinel_eqb ErrTokenUnverifiable target || sentinel_eqb s target.
Proof. simpl. rewrite orb_false_r. reflexivity. Qed.

(** ** The key cache *)

Lemma find_app_first {A : Type} (f : A -> bool) (l1 l2 : list A) :
  find f (l1 ++ l2)%list =
    match find f l1 with
    | Some x => Some x
    | None => find f l2
    end.
Proof.
  induction l1 as [|x l1 IH]; simpl; [reflexivity|].
  destruct (f x); [reflexivity|exact IH].
Qed.

Lemma build_keyMap_invalid (batch : list Key) (m : gmap string Key) :
  (exists k, In k batch /\ Key_Validate k <> None) ->
  exists e, build_keyMap batch m = inl e.
Proof.
  revert m. induction batch as [|key rest IH]; intros m [k [Hin Hk]].
  - destruct Hin.
  - simpl. destruct (Key_Validate key) as [e|] eqn:Hv; [eauto|].
    destruct Hin as [->|Hin]; [congruence|]. apply IH. eauto.
Qed.

Lemma build_keyMap_valid (batch : list Key) (m : gmap string Key) :
  (forall k, In k batch -> Key_Validate k = None) ->
  exists m', build_keyMap batch m = inr m' /\
    forall id, m' !! id =
      match last_with_id id batch with
      | Some k => Some k
      | None => m !! id
      end.
Proof.
  revert m. induction batch as [|key rest IH]; intros m Hall.
  - exists m. split; [reflexivity|]. intros id. reflexivity.
  - simpl. rewrite (Hall key) by (left; reflexivity).
    destruct (IH (<[Kid key := key]> m)) as [m' [Hb Hm']].
    { intros k Hk. apply Hall. right. exact Hk. }
    exists m'. split; [exact Hb|]. intros id. rewrite Hm'.
    unfold last_with_id. simpl. rewrite find_app_first.
    destruct (find _ (rev rest)) as [k|]; [reflexivity|].
    simpl. destruct (String.eqb_spec (Kid key) id) as [->|Hne].
    + apply lookup_insert_eq.
    + apply lookup_insert_ne. exact Hne.
Qed.

(** C3. [refreshKeys] is atomic on failure: when the provider's [RefreshKeys]
    returns an error, or some key of the batch fails [Key.Validate], it
    returns a non-nil error and the key map and [nextKeyRefresh] are what
    they were; on a batch whose keys are all valid it returns nil and both
    are replaced together, the new map holding exactly the keys of the batch
    (for each id the last key of the batch with that [Kid]). *)
Theorem refreshKeys_atomic_on_failure
    (a a' : Auth) (batch : list Key) (nextRefresh : Time) (perr err : option error) :
  RefreshKeys (authProvider a) (count_event EvRefreshKeys (log a))
    = (batch, nextRefresh, perr) ->
  refreshKeys a = (a', err) ->
  ((perr <> None \/ exists k, In k batch /\ Key_Validate k <> None) ->
     err <> None /\ keys a' = keys a /\ nextKeyRefresh a' = nextKeyRefresh a)
  /\
  ((perr = None /\ forall k, In k batch -> Key_Validate k = None) ->
     err = None /\ nextKeyRefresh a' = nextRefresh /\
     forall id, keys a' !! id = last_with_id id batch).
Proof.
  intros Hp Hr. unfold refreshKeys in Hr. rewrite Hp in Hr. split.
  - intros Hfail. destruct perr as [e|].
    + inversion Hr; subst. simpl. repeat split; congruence.
    + destruct Hfail as [Hfail|Hfail]; [congruence|].
      destruct (build_keyMap_invalid batch ∅ Hfail) as [e He].
      rewrite He in Hr. inversion Hr; subst. simpl. repeat split; congruence.
  - intros [-> Hall].
    destruct (build_keyMap_valid batch ∅ Hall) as [m' [Hb Hm']].
    rewrite Hb in Hr. inversion Hr; subst. simpl.
    repeat split. intros id. rewrite Hm'.
    destruct (last_with_id id batch); [reflexivity|]. apply lookup_empty.
Qed.

(** A failing and a succeeding refresh of the example provider: the second
    batch has a malformed key after a good one and leaves the cache alone,
    the first batch is installed. *)
Lemma refreshKeys_atomic_on_failure_witness :
  (snd (refreshKeys Examples.loaded) <> None
   /\ keys (fst (refreshKeys Examples.loaded)) = keys Examples.loaded
   /\ nextKeyRefresh (fst (refreshKeys Examples.loaded)) = 2000%Z)
  /\
  (snd (refreshKeys Examples.fresh) = None
   /\ nextKeyRefresh (fst (refreshKeys Examples.fresh)) = 2000%Z
   /\ keys (fst (refreshKeys Examples.fresh)) !! "k1" = Some Examples.k1).
Proof.
  split.
  - destruct (refreshKeys_atomic_on_failure Examples.loaded
                (fst (refreshKeys Examples.loaded))
                [Examples.k2; Examples.k_bad] 3000%Z None
                (snd (refreshKeys Examples.loaded)) eq_refl eq_refl)
      as [Hfail _].
    destruct Hfail as [He [Hk Hn]].
    { right. exists Examples.k_bad. split; [right; left; reflexivity|].
      vm_compute. discriminate. }
    split; [exact He|]. split; [exact Hk|]. rewrite Hn. reflexivity.
  - destruct (refreshKeys_atomic_on_failure Examples.fresh
                (fst (refreshKeys Examples.fresh))
                [Examples.k1] 2000%Z None
                (snd (refreshKeys Examples.fresh)) eq_refl eq_refl)
      as [_ Hok].
    destruct Hok as [He [Hn Hk]].
    { split; [reflexivity|]. intros k [<-|[]]. reflexivity. }
    split; [exact He|]. split; [exact Hn|]. rewrite Hk. reflexivity.
Defined.

(** ** [awaitKey] *)

Ltac close_sound :=
  repeat split; try assumption; try lia; try (intros ? ?; lia).

Section AwaitKey.

Variable tl : Timeline.
Variable race : SelectCase.
Variable kid : string.

Lemma awaitKey_loop_unfold (remaining elapsed : nat) :
  awaitKey_loop tl race kid remaining elapsed =
    match lookupAt tl kid elapsed with
    | Some key => (Some key, true, elapsed)
    | None =>
        if negb (isRefreshingAt tl elapsed) then (None, false, elapsed)
        else
          match remaining with
          | 0 => (None, false, elapsed)
          | S remaining' =>
              match select_wait race remaining with
              | TickerC => awaitKey_loop tl race kid remaining' (S elapsed)
              | TimeoutC => (None, false, S elapsed)
              end
          end
    end.
Proof. destruct remaining; reflexivity. Qed.

(** A lookup that succeeds [d] seconds into the loop, after polls that all
    missed while a refresh was due, ends the loop with the key. *)
Lemma awaitKey_loop_found (d remaining elapsed : nat) (key : Key) :
  pending tl kid elapsed (elapsed + d) ->
  lookupAt tl kid (elapsed + d) = Some key ->
  d < remaining \/ (d = remaining /\ race = TickerC) \/ d = 0 ->
  awaitKey_loop tl race kid remaining elapsed = (Some key, true, elapsed + d).
Proof.
  revert remaining elapsed.
  induction d as [|d IH]; intros remaining elapsed Hpend Hfound Hreach.
  - rewrite awaitKey_loop_unfold. rewrite Nat.add_0_r in *. rewrite Hfound.
    reflexivity.
  - rewrite awaitKey_loop_unfold.
    destruct (Hpend elapsed) as [Hmiss Href]; [lia|].
    rewrite Hmiss, Href. simpl negb. cbv iota.
    destruct remaining as [|remaining]; [lia|].
    assert (Hsel : select_wait race (S remaining) = TickerC).
    { destruct remaining as [|remaining]; [|reflexivity].
      simpl. destruct Hreach as [H|[[_ H]|H]]; [lia|exact H|lia]. }
    rewrite Hsel. replace (elapsed + S d) with (S elapsed + d) in * by lia.
    apply IH; [|exact Hfound|].
    + intros i Hi. apply Hpend. lia.
    + destruct Hreach as [H|[[H1 H2]|H]]; [left; lia| |lia].
      right. left. split; [lia|exact H2].
Qed.

(** When every poll misses while a refresh is due, the loop ends with the
    timeout, [remaining] seconds later. *)
Lemma awaitKey_loop_window (remaining elapsed : nat) :
  pending tl kid elapsed (elapsed + remaining) ->
  match race with
  | TimeoutC => 1 <= remaining
  | TickerC => lookupAt tl kid (elapsed + remaining) = None
  end ->
  awaitKey_loop tl race kid remaining elapsed = (None, false, elapsed + remaining).
Proof.
  revert elapsed.
  induction remaining as [|remaining IH]; intros elapsed Hpend Hlast.
  - rewrite awaitKey_loop_unfold. rewrite Nat.add_0_r in *.
    destruct race; [|lia]. rewrite Hlast.
    destruct (negb (isRefreshingAt tl elapsed)); reflexivity.
  - rewrite awaitKey_loop_unfold.
    destruct (Hpend elapsed) as [Hmiss Href]; [lia|].
    rewrite Hmiss, Href. simpl negb. cbv iota.
    replace (elapsed + S remaining) with (S elapsed + remaining) in * by lia.
    destruct remaining as [|remaining].
    + simpl select_wait. destruct race.
      * apply IH; [intros i Hi; lia|exact Hlast].
      * f_equal. lia.
    + change (select_wait race (S (S remaining))) with TickerC. cbv iota.
      apply IH.
      * intros i Hi. apply Hpend. lia.
      * destruct race; [exact Hlast|lia].
Qed.

(** What any run of the loop satisfies: it ends within [remaining] seconds,
    every poll before the last missed while a refresh was due, and a key is
    returned only from a lookup that found it. *)
Lemma awaitKey_loop_sound (remaining elapsed : nat) :
  exists (k : option Key) (ok : bool) (t : nat),
    awaitKey_loop tl race kid remaining elapsed = (k, ok, t)
    /\ elapsed <= t <= elapsed + remaining
    /\ pending tl kid elapsed t
    /\ match k with
       | Some key => ok = true /\ lookupAt tl kid t = Some key
       | None => ok = false
       end.
Proof.
  revert elapsed. induction remaining as [|remaining IH]; intros elapsed.
  - rewrite awaitKey_loop_unfold.
    destruct (lookupAt tl kid elapsed) as [key|] eqn:Hl.
    + exists (Some key), true, elapsed. close_sound.
    + exists None, false, elapsed.
      destruct (negb (isRefreshingAt tl elapsed)); close_sound.
  - rewrite awaitKey_loop_unfold.
    destruct (lookupAt tl kid elapsed) as [key|] eqn:Hl.
    + exists (Some key), true, elapsed. close_sound.
    + destruct (isRefreshingAt tl elapsed) eqn:Href; simpl negb; cbv iota.
      * assert (Hone : pending tl kid elapsed (S elapsed)).
        { intros i Hi. assert (i = elapsed) as -> by lia. split; assumption. }
        destruct (select_wait race (S remaining)).
        -- destruct (IH (S elapsed)) as (k & ok & t & He & Hb & Hp & Hk).
           exists k, ok, t.
           split; [exact He|]. split; [lia|]. split; [|exact Hk].
           intros i Hi. destruct (Nat.eq_dec i elapsed) as [->|Hne].
           ++ split; assumption.
           ++ apply Hp. lia.
        -- exists None, false, (S elapsed).
           split; [reflexivity|]. split; [lia|]. split; [exact Hone|reflexivity].
      * exists None, false, elapsed. close_sound.
Qed.

End AwaitKey.

(** C2. For a key id absent from the cache: when the current time is not
    after [nextKeyRefresh], [awaitKey] returns (nil, false) at once, without
    waiting; when it is after it, [awaitKey] polls once per second for at
    most 5 seconds (every poll before the last one missed while a refresh was
    due), returns the key with true as soon as a lookup succeeds, and returns
    (nil, false) when the 5 seconds elapse without the key appearing. *)
Theorem awaitKey_polls_while_refreshing
    (tl : Timeline) (race : SelectCase) (kid : string) :
  lookupAt tl kid 0 = None ->
  (isRefreshingAt tl 0 = false -> awaitKey tl race kid = (None, false, 0))
  /\
  (isRefreshingAt tl 0 = true ->
     (exists (k : option Key) (ok : bool) (t : nat),
        awaitKey tl race kid = (k, ok, t)
        /\ t <= 5
        /\ pending tl kid 0 t
        /\ match k with
           | Some key => ok = true /\ lookupAt tl kid t = Some key
           | None => ok = false
           end)
     /\
     (forall (t : nat) (key : Key),
        t < 5 \/ (t = 5 /\ race = TickerC) ->
        pending tl kid 0 t ->
        lookupAt tl kid t = Some key ->
        awaitKey tl race kid = (Some key, true, t))
     /\
     (pending tl kid 0 5 ->
      (race = TickerC -> lookupAt tl kid 5 = None) ->
      awaitKey tl race kid = (None, false, 5))).
Proof.
  intros Hmiss. split.
  - intros Href. unfold awaitKey. rewrite awaitKey_loop_unfold.
    rewrite Hmiss, Href. reflexivity.
  - intros _. split; [|split].
    + destruct (awaitKey_loop_sound tl race kid maxWaitDuration 0)
        as (k & ok & t & He & Hb & Hp & Hk).
      exists k, ok, t. unfold maxWaitDuration in Hb.
      split; [exact He|]. split; [lia|]. split; [exact Hp|exact Hk].
    + intros t key Ht Hp Hfound.
      apply (awaitKey_loop_found tl race kid t maxWaitDuration 0 key).
      * exact Hp.
      * exact Hfound.
      * unfold maxWaitDuration. destruct Ht as [Ht|[-> Hr]]; [left; lia|].
        right. left. split; [reflexivity|exact Hr].
    + intros Hp Hlast.
      apply (awaitKey_loop_window tl race kid maxWaitDuration 0).
      * exact Hp.
      * destruct race; [apply Hlast; reflexivity|unfold maxWaitDuration; lia].
Qed.

(** Three runs: no refresh is due and the unknown id is refused at once; a
    refresh is due and installs [k1] three seconds after the call; a refresh
    is due and the id never appears. *)
Lemma awaitKey_polls_while_refreshing_witness :
  awaitKey (Examples.still Examples.loaded 1000%Z) TickerC "zz" = (None, false, 0)
  /\ awaitKey (Examples.refreshed_after Examples.fresh 3 5000%Z) TimeoutC "k1"
       = (Some Examples.k1, true, 3)
  /\ awaitKey (Examples.still Examples.loaded 5000%Z) TickerC "zz" = (None, false, 5).
Proof.
  split; [|split].
  - apply (awaitKey_polls_while_refreshing
             (Examples.still Examples.loaded 1000%Z) TickerC "zz");
      reflexivity.
  - apply (awaitKey_polls_while_refreshing
             (Examples.refreshed_after Examples.fresh 3 5000%Z) TimeoutC "k1");
      try reflexivity.
    + left. lia.
    + intros i Hi. destruct i as [|[|[|i]]]; [split; reflexivity ..|lia].
  - apply (awaitKey_polls_while_refreshing
             (Examples.still Examples.loaded 5000%Z) TickerC "zz");
      try reflexivity.
    intros i Hi. split; reflexivity.
Defined.

(** ** [Authenticate] and [Authorize] *)

Section Facade.

Variable lib : JWTLibrary.
Variable tl : Timeline.
Variable race : SelectCase.

Lemma bearer_prefix_nonempty (h : string) :
  GoStrings.HasPrefix (GoStrings.ToLower h) "bearer " = true ->
  String.eqb h "" = false.
Proof. destruct h; [discriminate|reflexivity]. Qed.

Lemma Authenticate_missing_header (r : Request) :
  Header_Get (Header r) "Authorization" = "" ->
  Authenticate lib tl race (Some r) = (false, "missing authorization header", None).
Proof. intros H. unfold Authenticate. rewrite H. reflexivity. Qed.

Lemma Authenticate_malformed_header (r : Request) :
  Header_Get (Header r) "Authorization" <> "" ->
  GoStrings.HasPrefix
    (GoStrings.ToLower (Header_Get (Header r) "Authorization")) "bearer " = false ->
  Authenticate lib tl race (Some r) = (false, "malformed authorization header", None).
Proof.
  intros Hne Hp. unfold Authenticate.
  destruct (String.eqb_spec (Header_Get (Header r) "Authorization") "") as [E|_];
    [contradiction|].
  rewrite Hp. reflexivity.
Qed.

Lemma Authenticate_missing_token (r : Request) :
  GoStrings.HasPrefix
    (GoStrings.ToLower (Header_Get (Header r) "Authorization")) "bearer " = true ->
  GoStrings.TrimSpace (GoStrings.slice_from 7 (Header_Get (Header r) "Authorization")) = "" ->
  Authenticate lib tl race (Some r) = (false, "missing bearer token", None).
Proof.
  intros Hp Ht. unfold Authenticate.
  rewrite (bearer_prefix_nonempty _ Hp), Hp, Ht. reflexivity.
Qed.

(** A request that carries [tok] as its bearer credential. *)
Lemma Authenticate_bearer (r : Request) (tok : string) :
  GoStrings.HasPrefix
    (GoStrings.ToLower (Header_Get (Header r) "Authorization")) "bearer " = true ->
  GoStrings.TrimSpace (GoStrings.slice_from 7 (Header_Get (Header r) "Authorization")) = tok ->
  tok <> "" ->
  Authenticate lib tl race (Some r) =
    match validateJWT lib tl race tok with
    | (_, _, Some err) => (false, "", Some (Wrapf "failed to validate jwt" err))
    | (isValid, reason, None) => (isValid, reason, None)
    end.
Proof.
  intros Hp Ht Hne. unfold Authenticate.
  rewrite (bearer_prefix_nonempty _ Hp), Hp, Ht.
  destruct (String.eqb_spec tok "") as [E|_]; [contradiction|reflexivity].
Qed.

End Facade.

(** C6. For a non-nil request, the extraction of the bearer token in
    [Authenticate] ends in one of three distinct rejections, whatever the
    JWT validation would do: no Authorization header gives (false, "missing
    authorization header", nil); a header that does not begin, ignoring case,
    with "bearer " gives (false, "malformed authorization header", nil); a
    header with the bearer scheme and an empty or all-white-space token gives
    (false, "missing bearer token", nil). *)
Theorem Authenticate_bearer_extraction
    (lib : JWTLibrary) (tl : Timeline) (race : SelectCase) (r : Request) :
  let authHeader := Header_Get (Header r) "Authorization" in
  (Header r !! "Authorization" = None ->
     Authenticate lib tl race (Some r) = (false, "missing authorization header", None))
  /\
  (authHeader <> "" ->
   GoStrings.HasPrefix (GoStrings.ToLower authHeader) "bearer " = false ->
     Authenticate lib tl race (Some r) = (false, "malformed authorization header", None))
  /\
  (GoStrings.HasPrefix (GoStrings.ToLower authHeader) "bearer " = true ->
   GoStrings.slice_from 7 authHeader = ""
   \/ GoStrings.allSpace (GoStrings.slice_from 7 authHeader) = true
   \/ GoStrings.TrimSpace (GoStrings.slice_from 7 authHeader) = "" ->
     Authenticate lib tl race (Some r) = (false, "missing bearer token", None))
  /\
  ("missing authorization header" <> "malformed authorization header"
   /\ "missing authorization header" <> "missing bearer token"
   /\ "malformed authorization header" <> "missing bearer token").
Proof.
  intros authHeader. split; [|split; [|split]].
  - intros Habs. apply Authenticate_missing_header.
    unfold Header_Get. rewrite Habs. reflexivity.
  - apply Authenticate_malformed_header.
  - intros Hp Hempty. apply Authenticate_missing_token; [exact Hp|].
    fold authHeader. destruct Hempty as [->|[H|H]].
    + reflexivity.
    + apply allSpace_TrimSpace. exact H.
    + exact H.
  - repeat split; discriminate.
Qed.

(** A request without the header, one with the Basic scheme, and one whose
    bearer token is blank. *)
Lemma Authenticate_bearer_extraction_witness :
  Authenticate Examples.library (Examples.still Examples.loaded 1000%Z) TickerC
    (Some (mkRequest ∅)) = (false, "missing authorization header", None)
  /\ Authenticate Examples.library (Examples.still Examples.loaded 1000%Z) TickerC
       (Some (mkRequest {[ "Authorization" := ["Basic dXNlcjpwdw=="] ]}))
     = (false, "malformed authorization header", None)
  /\ Authenticate Examples.library (Examples.still Examples.loaded 1000%Z) TickerC
       (Some (mkRequest {[ "Authorization" := ["BEARER    "] ]}))
     = (false, "missing bearer token", None).
Proof.
  split; [|split].
  - apply (Authenticate_bearer_extraction Examples.library
             (Examples.still Examples.loaded 1000%Z) TickerC (mkRequest ∅)).
    reflexivity.
  - apply (Authenticate_bearer_extraction Examples.library
             (Examples.still Examples.loaded 1000%Z) TickerC
             (mkRequest {[ "Authorization" := ["Basic dXNlcjpwdw=="] ]})).
    + vm_compute. discriminate.
    + reflexivity.
  - apply (Authenticate_bearer_extraction Examples.library
             (Examples.still Examples.loaded 1000%Z) TickerC
             (mkRequest {[ "Authorization" := ["BEARER    "] ]})).
    + reflexivity.
    + right. left. reflexivity.
Defined.

(** C10. For the nil request [Authenticate] returns (false, "", e) and
    [Authorize] returns (false, e) with e a non-nil error; a request whose
    Authorization header is present but malformed (another scheme, or the
    bearer scheme without a token) gets a non-empty reason and a nil
    error. *)
Theorem nil_request_is_an_error
    (lib : JWTLibrary) (tl : Timeline) (race : SelectCase) (a : Auth)
    (requirements : AuthRequirements) :
  (exists e : error, Authenticate lib tl race None = (false, "", Some e))
  /\
  (exists e : error, Authorize a None requirements = (false, Some e))
  /\
  (forall r : Request,
     let authHeader := Header_Get (Header r) "Authorization" in
     authHeader <> "" ->
     GoStrings.HasPrefix (GoStrings.ToLower authHeader) "bearer " = false
     \/ GoStrings.TrimSpace (GoStrings.slice_from 7 authHeader) = "" ->
     exists reason : string,
       Authenticate lib tl race (Some r) = (false, reason, None) /\ reason <> "").
Proof.
  split; [|split].
  - eexists. reflexivity.
  - eexists. reflexivity.
  - intros r authHeader Hne Hbad.
    destruct (GoStrings.HasPrefix (GoStrings.ToLower authHeader) "bearer ") eqn:Hp.
    + destruct Hbad as [Hbad|Hbad]; [discriminate|].
      exists "missing bearer token". split; [|discriminate].
      apply Authenticate_missing_token; assumption.
    + exists "malformed authorization header". split; [|discriminate].
      apply Authenticate_malformed_header; assumption.
Qed.

Lemma nil_request_is_an_error_witness :
  exists reason : string,
    Authenticate Examples.library (Examples.still Examples.loaded 1000%Z) TickerC
      (Some (mkRequest {[ "Authorization" := ["Basic dXNlcjpwdw=="] ]}))
    = (false, reason, None) /\ reason <> "".
Proof.
  apply (nil_request_is_an_error Examples.library
           (Examples.still Examples.loaded 1000%Z) TickerC Examples.loaded
           (mkAuthRequirements [] [])).
  - vm_compute. discriminate.
  - left. reflexivity.
Defined.

(** ** Aggregation of the authorization requirements *)

Lemma fold_add_requirement (l : list AuthRequirements) (acc : AuthRequirements) :
  fold_left add_requirement l acc =
    mkAuthRequirements
      (AnyRole acc ++ concat (map AnyRole l))
      (AllPermissions acc ++ concat (map AllPermissions l)).
Proof.
  revert acc. induction l as [|q l IH]; intros acc; simpl.
  - rewrite !app_nil_r. destruct acc; reflexivity.
  - rewrite IH. simpl. rewrite <- !app_assoc. reflexivity.
Qed.

Lemma in_concat_map {A B : Type} (f : A -> list B) (l : list A) (x : B) :
  In x (concat (map f l)) <-> exists q, In q l /\ In x (f q).
Proof.
  rewrite in_concat. split.
  - intros [ys [Hys Hx]]. apply in_map_iff in Hys as [q [<- Hq]]. eauto.
  - intros [q [Hq Hx]]. exists (f q). split; [apply in_map; exact Hq|exact Hx].
Qed.

(** C9. The requirement that an authenticated endpoint registered with
    several [AuthRequirements] forwards to the provider is their union: its
    [AnyRole] is the concatenation of the [AnyRole] lists of the arguments
    and its [AllPermissions] the concatenation of their [AllPermissions]
    lists, so it holds exactly the roles and permissions that occur in some
    argument; [Authorize] hands the request and this one requirement to the
    provider's [AuthorizeRequest] and returns its answer, which decides what
    the wrapped handler does with an authenticated request. *)
Theorem aggregate_is_union
    (a : Auth) (authRequirements : list AuthRequirements) (r : Request) :
  AnyRole (aggregate authRequirements) = concat (map AnyRole authRequirements)
  /\ AllPermissions (aggregate authRequirements)
       = concat (map AllPermissions authRequirements)
  /\ (forall role : string,
        In role (AnyRole (aggregate authRequirements)) <->
        exists q, In q authRequirements /\ In role (AnyRole q))
  /\ (forall permission : string,
        In permission (AllPermissions (aggregate authRequirements)) <->
        exists q, In q authRequirements /\ In permission (AllPermissions q))
  /\ Authorize a (Some r) (aggregate authRequirements)
       = AuthorizeRequest (authProvider a) r (aggregate authRequirements)
  /\ (forall (Resp : Type) (lib : JWTLibrary) (tl : Timeline) (race : SelectCase)
             (handler : Request -> option Resp) (reason : string),
        Authenticate lib tl race (Some r) = (true, reason, None) ->
        wrappedHandler lib tl race a handler authRequirements r =
          match AuthorizeRequest (authProvider a) r (aggregate authRequirements) with
          | (_, Some _) => Status 500%Z "internal server error"
          | (false, None) => Status 403%Z "forbidden"
          | (true, None) =>
              match handler r with
              | None => Status 500%Z "internal server error"
              | Some resp => Handled resp
              end
          end).
Proof.
  assert (HA : AnyRole (aggregate authRequirements)
               = concat (map AnyRole authRequirements)).
  { unfold aggregate. rewrite fold_add_requirement. reflexivity. }
  assert (HP : AllPermissions (aggregate authRequirements)
               = concat (map AllPermissions authRequirements)).
  { unfold aggregate. rewrite fold_add_requirement. reflexivity. }
  split; [exact HA|]. split; [exact HP|].
  split; [intros role; rewrite HA; apply in_concat_map|].
  split; [intros permission; rewrite HP; apply in_concat_map|].
  split; [reflexivity|].
  intros Resp lib tl race handler reason Hauth.
  unfold wrappedHandler. rewrite Hauth. reflexivity.
Qed.

(** An endpoint registered with a role requirement and a permission
    requirement: the role of the first reaches the provider, which
    authorizes the authenticated request. *)
Lemma aggregate_is_union_witness :
  In "admin"
    (AnyRole (aggregate [mkAuthRequirements ["admin"] [];
                         mkAuthRequirements ["auditor"] ["reports.read"]]))
  /\ wrappedHandler Examples.library (Examples.still Examples.loaded 1000%Z) TickerC
       Examples.loaded (fun _ => Some 200%Z)
       [mkAuthRequirements ["admin"] [];
        mkAuthRequirements ["auditor"] ["reports.read"]]
       (Examples.bearer Examples.tok_RS256_k1)
     = Handled 200%Z.
Proof.
  destruct (aggregate_is_union Examples.loaded
              [mkAuthRequirements ["admin"] [];
               mkAuthRequirements ["auditor"] ["reports.read"]]
              (Examples.bearer Examples.tok_RS256_k1))
    as (_ & _ & Hrole & _ & _ & Hhandler).
  split.
  - apply Hrole. exists (mkAuthRequirements ["admin"] []).
    split; left; reflexivity.
  - rewrite (Hhandler Z Examples.library (Examples.still Examples.loaded 1000%Z)
               TickerC (fun _ => Some 200%Z) "" eq_refl).
    reflexivity.
Defined.

(** ** [validateJWT] *)

Section ValidateJWT.

Variable lib : JWTLibrary.
Variable tl : Timeline.
Variable race : SelectCase.

Lemma jwt_Parse_keyFunc_error (tokenString : string)
    (header : gmap string JSONValue) (alg : string) (e : error) :
  reaches_keyFunc lib tokenString header alg ->
  keyFunc lib tl race (mkToken tokenString header false) = inl e ->
  jwt_Parse lib tokenString (keyFunc lib tl race)
    = inl (Joined "error while executing keyfunc" [Sentinel ErrTokenUnverifiable; e]).
Proof.
  intros (Hd & Ha & Hm & Hs) Hk. unfold jwt_Parse, jwt_ParseUnverified.
  rewrite Hd, Ha, Hm, Hs. simpl negb. cbv iota. rewrite Hk. reflexivity.
Qed.

(** The key function refuses a token without a non-empty string [alg] with
    [errorAlgMissing], which the switch of [validateJWT] would turn into the
    reason for a missing [alg]. *)
Lemma keyFunc_missing_alg (token : jwt_Token) :
  (forall alg, header_string token "alg" = Some alg -> alg = "") ->
  keyFunc lib tl race token = inl (Sentinel errorAlgMissing)
  /\ classify (Joined "error while executing keyfunc"
                 [Sentinel ErrTokenUnverifiable; Sentinel errorAlgMissing])
     = (false, "token header is missing an 'alg' value", None).
Proof.
  intros H. split; [|reflexivity]. unfold keyFunc.
  destruct (header_string token "alg") as [alg|]; [|reflexivity].
  rewrite (H alg eq_refl). reflexivity.
Qed.

(** A token that reaches the key function without a non-empty string [kid]
    is rejected with the reason for a missing [kid], and no error. *)
Lemma validateJWT_missing_kid (tokenString : string)
    (header : gmap string JSONValue) (alg : string) :
  reaches_keyFunc lib tokenString header alg ->
  alg <> "" ->
  (forall kid, header !! "kid" = Some (JString kid) -> kid = "") ->
  validateJWT lib tl race tokenString
    = (false, "token header is missing a 'kid' value", None).
Proof.
  intros Hreach Halg Hkid. unfold validateJWT.
  rewrite (jwt_Parse_keyFunc_error tokenString header alg (Sentinel errorKidMissing) Hreach).
  - reflexivity.
  - destruct Hreach as (_ & Ha & _). unfold keyFunc, header_string. simpl.
    rewrite Ha. destruct (String.eqb_spec alg "") as [E|_]; [contradiction|].
    destruct (header !! "kid") as [[kid| | | | |]|] eqn:Hk; try reflexivity.
    rewrite (Hkid kid eq_refl). reflexivity.
Qed.

Lemma validateJWT_alg_invalid (tokenString : string)
    (header : gmap string JSONValue) (alg kid : string) (key : Key) (waited : nat) :
  reaches_keyFunc lib tokenString header alg ->
  alg <> "" ->
  header !! "kid" = Some (JString kid) ->
  kid <> "" ->
  awaitKey tl race kid = (Some key, true, waited) ->
  GoStrings.ToLower (Alg key) <> GoStrings.ToLower alg ->
  validateJWT lib tl race tokenString
    = (false, "value for 'alg' header is invalid", None).
Proof.
  intros Hreach Halg Hkid Hkne Hkey Hdiff. unfold validateJWT.
  rewrite (jwt_Parse_keyFunc_error tokenString header alg (Sentinel errorAlgInvalid) Hreach).
  - reflexivity.
  - destruct Hreach as (_ & Ha & _). unfold keyFunc, header_string. simpl.
    rewrite Ha, Hkid.
    destruct (String.eqb_spec alg "") as [E|_]; [contradiction|].
    destruct (String.eqb_spec kid "") as [E|_]; [contradiction|].
    rewrite Hkey.
    destruct (String.eqb_spec (GoStrings.ToLower (Alg key)) (GoStrings.ToLower alg))
      as [E|_]; [contradiction|reflexivity].
Qed.

(** A failure to parse the PEM text of the cached key (with an error that
    wraps no sentinel of the switch) is an internal error: no reason, and the
    error handed on. *)
Lemma validateJWT_bad_pem (tokenString : string)
    (header : gmap string JSONValue) (alg kid : string) (key : Key)
    (waited : nat) (msg : string) :
  reaches_keyFunc lib tokenString header alg ->
  alg <> "" ->
  header !! "kid" = Some (JString kid) ->
  kid <> "" ->
  awaitKey tl race kid = (Some key, true, waited) ->
  GoStrings.ToLower (Alg key) = GoStrings.ToLower alg ->
  ParseRSAPublicKeyFromPEM lib (Pem key) = inl (Errorf msg) ->
  exists e, validateJWT lib tl race tokenString = (false, "", Some e).
Proof.
  intros Hreach Halg Hkid Hkne Hkey Hsame Hpem. unfold validateJWT.
  rewrite (jwt_Parse_keyFunc_error tokenString header alg
             (Wrapf "failed to parse RSA public key from key.pem" (Errorf msg)) Hreach).
  - eexists. reflexivity.
  - destruct Hreach as (_ & Ha & _). unfold keyFunc, header_string. simpl.
    rewrite Ha, Hkid.
    destruct (String.eqb_spec alg "") as [E|_]; [contradiction|].
    destruct (String.eqb_spec kid "") as [E|_]; [contradiction|].
    rewrite Hkey, Hsame, String.eqb_refl. simpl. rewrite Hpem. reflexivity.
Qed.

End ValidateJWT.

(** The scenarios of the example library: a token signed for the cached key
    is valid; one that names a key the cache does not have, while no refresh
    is due, is rejected at once. *)
Example validateJWT_valid :
  Authenticate Examples.library (Examples.still Examples.loaded 1000%Z) TickerC
    (Some (Examples.bearer Examples.tok_RS256_k1)) = (true, "", None).
Proof. reflexivity. Qed.

Example validateJWT_missing_kid_example :
  validateJWT Examples.library (Examples.still Examples.loaded 1000%Z) TickerC
    Examples.tok_no_kid = (false, "token header is missing a 'kid' value", None).
Proof. reflexivity. Qed.

Example validateJWT_key_not_found :
  validateJWT Examples.library (Examples.still Examples.fresh zeroTime) TickerC
    Examples.tok_RS256_k1 = (false, "key not found", None).
Proof. reflexivity. Qed.

(** C1, as the code has it.  For every token that golang-jwt hands to the
    key function and whose [alg] header differs, ignoring ASCII case, from
    the [Alg] of the cached key that its [kid] header resolves to,
    [validateJWT] returns (false, "value for 'alg' header is invalid", nil),
    and so does [Authenticate] on a request that carries the token as its
    bearer credential. *)
Theorem validateJWT_alg_mismatch
    (lib : JWTLibrary) (tl : Timeline) (race : SelectCase)
    (tokenString : string) (header : gmap string JSONValue)
    (alg kid : string) (key : Key) (waited : nat) :
  reaches_keyFunc lib tokenString header alg ->
  alg <> "" ->
  header !! "kid" = Some (JString kid) ->
  kid <> "" ->
  awaitKey tl race kid = (Some key, true, waited) ->
  GoStrings.ToLower (Alg key) <> GoStrings.ToLower alg ->
  validateJWT lib tl race tokenString
    = (false, "value for 'alg' header is invalid", None)
  /\
  (forall r : Request,
     GoStrings.HasPrefix
       (GoStrings.ToLower (Header_Get (Header r) "Authorization")) "bearer " = true ->
     GoStrings.TrimSpace
       (GoStrings.slice_from 7 (Header_Get (Header r) "Authorization")) = tokenString ->
     tokenString <> "" ->
     Authenticate lib tl race (Some r)
       = (false, "value for 'alg' header is invalid", None)).
Proof.
  intros Hreach Halg Hkid Hkne Hkey Hdiff.
  assert (Hv := validateJWT_alg_invalid lib tl race tokenString header alg kid
                  key waited Hreach Halg Hkid Hkne Hkey Hdiff).
  split; [exact Hv|].
  intros r Hp Ht Hne.
  rewrite (Authenticate_bearer lib tl race r tokenString Hp Ht Hne), Hv.
  reflexivity.
Qed.

(** The scenario of the specification: header alg HS256 and kid k1, cached
    key k1 with Alg RS256. *)
Lemma validateJWT_alg_mismatch_witness :
  validateJWT Examples.library (Examples.still Examples.loaded 1000%Z) TickerC
    Examples.tok_HS256_k1
  = (false, "value for 'alg' header is invalid", None)
  /\ Authenticate Examples.library (Examples.still Examples.loaded 1000%Z) TickerC
       (Some (Examples.bearer Examples.tok_HS256_k1))
     = (false, "value for 'alg' header is invalid", None).
Proof.
  destruct (validateJWT_alg_mismatch Examples.library
              (Examples.still Examples.loaded 1000%Z) TickerC
              Examples.tok_HS256_k1
              (list_to_map [("alg", JString "HS256"); ("kid", JString "k1")])
              "HS256" "k1" Examples.k1 0) as [Hv Ha].
  - repeat split; reflexivity.
  - discriminate.
  - reflexivity.
  - discriminate.
  - reflexivity.
  - vm_compute. discriminate.
  - split; [exact Hv|]. apply Ha; [reflexivity|reflexivity|discriminate].
Defined.

(** C1, as the claim words it, fails on its own scenario: with the header
    alg HS256 and kid k1 and the cached key k1 of Alg RS256, the reason
    returned is not "value for algorithm header is invalid". *)
Lemma validateJWT_alg_mismatch_counterexample :
  decodeSegments Examples.library Examples.tok_HS256_k1
    = Some (list_to_map [("alg", JString "HS256"); ("kid", JString "k1")])
  /\ keyWithID Examples.loaded "k1" = Some Examples.k1
  /\ Alg Examples.k1 = "RS256"
  /\ validateJWT Examples.library (Examples.still Examples.loaded 1000%Z) TickerC
       Examples.tok_HS256_k1
     <> (false, "value for algorithm header is invalid", None)
  /\ Authenticate Examples.library (Examples.still Examples.loaded 1000%Z) TickerC
       (Some (Examples.bearer Examples.tok_HS256_k1))
     <> (false, "value for algorithm header is invalid", None).
Proof.
  split; [reflexivity|]. split; [reflexivity|]. split; [reflexivity|].
  split; vm_compute; discriminate.
Qed.

(** C5, the [alg] half, on the code.  A token whose header has no string
    [alg] never reaches the key function: golang-jwt refuses it when it looks
    up the signing method, with an error that joins [ErrTokenUnverifiable]
    only, which the switch of [validateJWT] passes on as an error with an
    empty reason; the same holds for an empty [alg], which names no signing
    method.  The reason "token header is missing an 'alg' value" is not
    returned. *)
Theorem validateJWT_missing_alg_is_an_error
    (lib : JWTLibrary) (tl : Timeline) (race : SelectCase)
    (tokenString : string) (header : gmap string JSONValue) :
  decodeSegments lib tokenString = Some header ->
  ((forall alg, header !! "alg" <> Some (JString alg)) ->
     validateJWT lib tl race tokenString
       = (false, "",
          Some (Joined "signing method (alg) is unspecified"
                  [Sentinel ErrTokenUnverifiable])))
  /\
  (header !! "alg" = Some (JString "") ->
   GetSigningMethod lib "" = false ->
     validateJWT lib tl race tokenString
       = (false, "",
          Some (Joined "signing method (alg) is unavailable"
                  [Sentinel ErrTokenUnverifiable]))).
Proof.
  intros Hd. unfold validateJWT, jwt_Parse, jwt_ParseUnverified. rewrite Hd.
  split.
  - intros Hno.
    destruct (header !! "alg") as [[alg| | | | |]|] eqn:Ha; try reflexivity.
    exfalso. apply (Hno alg). reflexivity.
  - intros -> ->. reflexivity.
Qed.

(** The token whose header is the object with the single member kid, and the
    token whose alg is the empty string. *)
Lemma validateJWT_missing_alg_is_an_error_witness :
  validateJWT Examples.library (Examples.still Examples.loaded 1000%Z) TickerC
    Examples.tok_no_alg
  = (false, "",
     Some (Joined "signing method (alg) is unspecified" [Sentinel ErrTokenUnverifiable]))
  /\ validateJWT Examples.library (Examples.still Examples.loaded 1000%Z) TickerC
       Examples.tok_empty_alg
     = (false, "",
        Some (Joined "signing method (alg) is unavailable" [Sentinel ErrTokenUnverifiable])).
Proof.
  split.
  - apply (validateJWT_missing_alg_is_an_error Examples.library
             (Examples.still Examples.loaded 1000%Z) TickerC Examples.tok_no_alg
             (list_to_map [("kid", JString "k1")]) eq_refl).
    intros alg. vm_compute. discriminate.
  - apply (validateJWT_missing_alg_is_an_error Examples.library
             (Examples.still Examples.loaded 1000%Z) TickerC Examples.tok_empty_alg
             (list_to_map [("alg", JString ""); ("kid", JString "k1")]) eq_refl);
      reflexivity.
Defined.

(** ** [Start] *)

Lemma Start_again (a : Auth) :
  start a = true -> Start a = (a, errorChan a).
Proof. intros H. unfold Start. rewrite H. reflexivity. Qed.

Lemma Start_first (a : Auth) :
  start a = false -> Start a = (start_body a, errorChan a).
Proof. intros H. unfold Start. rewrite H. reflexivity. Qed.

Lemma Start_calls_again (n : nat) (a : Auth) :
  start a = true -> Start_calls n a = (a, repeat (errorChan a) n).
Proof.
  intros H. induction n as [|n IH]; [reflexivity|].
  cbn [Start_calls]. rewrite (Start_again a H), IH. reflexivity.
Qed.

Lemma Start_calls_first (n : nat) (a : Auth) :
  start a = false ->
  Start_calls (S n) a = (start_body a, repeat (errorChan a) (S n)).
Proof.
  intros H. cbn [Start_calls]. rewrite (Start_first a H).
  rewrite (Start_calls_again n (start_body a) eq_refl). reflexivity.
Qed.

(** The prologue of the refresh loop calls the provider's [RefreshKeys]
    once, and launches nothing. *)
Lemma refreshLoop_init_events (a : Auth) :
  log (outcome_auth (refreshLoop_init a)) = EvRefreshKeys :: log a.
Proof.
  unfold refreshLoop_init, refreshKeys.
  destruct (RefreshKeys (authProvider a) (count_event EvRefreshKeys (log a)))
    as [[batch nextRefresh] [e|]].
  - simpl. unfold chan_send. simpl.
    destruct (chan_closed (errorChan a)); reflexivity.
  - destruct (build_keyMap batch ∅) as [e|m]; [|reflexivity].
    unfold chan_send. simpl.
    destruct (chan_closed (errorChan a)); reflexivity.
Qed.

(** C7. [Start] is idempotent.  On an instance that has not been started, a
    sequence of one, two or more calls leaves the instance as a single call
    does, every call returns the error channel of the instance, exactly one
    refresh loop is launched, and running what was launched performs exactly
    one (initial) call of the provider's [RefreshKeys]. *)
Theorem Start_idempotent (a : Auth) (n : nat) :
  start a = false ->
  1 <= n ->
  fst (Start_calls n a) = fst (Start a)
  /\ snd (Start_calls n a) = repeat (errorChan a) n
  /\ snd (Start a) = errorChan a
  /\ count_event EvGoRefreshLoop (log (fst (Start_calls n a)))
       = S (count_event EvGoRefreshLoop (log a))
  /\ count_event EvRefreshKeys
       (log (run_launched
               (count_event EvGoRefreshLoop (log (fst (Start_calls n a)))
                - count_event EvGoRefreshLoop (log a))
               (fst (Start_calls n a))))
       = S (count_event EvRefreshKeys (log a)).
Proof.
  intros Hs Hn. destruct n as [|n]; [lia|].
  rewrite (Start_calls_first n a Hs), (Start_first a Hs).
  cbn [fst snd].
  assert (Hgo : count_event EvGoRefreshLoop (log (start_body a))
                = S (count_event EvGoRefreshLoop (log a))) by reflexivity.
  repeat split; try assumption.
  rewrite Hgo.
  replace (S (count_event EvGoRefreshLoop (log a))
           - count_event EvGoRefreshLoop (log a)) with 1 by lia.
  cbn [run_launched]. rewrite refreshLoop_init_events. reflexivity.
Qed.

(** Three calls on the instance made by [New]. *)
Lemma Start_idempotent_witness :
  fst (Start_calls 3 Examples.fresh) = fst (Start Examples.fresh)
  /\ snd (Start_calls 3 Examples.fresh)
       = [errorChan Examples.fresh; errorChan Examples.fresh; errorChan Examples.fresh]
  /\ count_event EvGoRefreshLoop (log (fst (Start_calls 3 Examples.fresh))) = 1.
Proof.
  destruct (Start_idempotent Examples.fresh 3) as (H1 & H2 & _ & H4 & _).
  - reflexivity.
  - lia.
  - split; [exact H1|]. split; [exact H2|exact H4].
Defined.

(** ** [shutdown] *)

Lemma shutdown_returns (a : Auth) :
  exists a', shutdown a = Returned None a'
    /\ refreshKeysTicker a' = None
    /\ count_event EvTickerStop (log a')
         = match refreshKeysTicker a with Some _ => 1 | None => 0 end
           + count_event EvTickerStop (log a)
    /\ chan_closed (errorChan a')
         = chan_closed (errorChan a)
           || match chan_senders (errorChan a) with [] => true | _ => false end
    /\ chan_senders (errorChan a')
         = (if chan_closed (errorChan a) then chan_senders (errorChan a)
            else List.tl (chan_senders (errorChan a)))
    /\ count_event EvChanClose (log a')
         = (if chan_closed (errorChan a) then 0
            else match chan_senders (errorChan a) with [] => 1 | _ => 0 end)
           + count_event EvChanClose (log a).
Proof.
  unfold shutdown, chan_try_recv, chan_close.
  destruct a as [p [id closed senders] ks nat nk rat rkt st lg]. simpl.
  destruct rkt as [t|]; simpl; destruct closed; simpl;
    destruct senders as [|e rest]; simpl; eexists;
    (split; [reflexivity|]); simpl; repeat split.
Qed.

(** C8, as the code has it.  Two calls of [shutdown] in sequence never
    panic, whatever the state of the instance (ticker released or not, error
    channel open, closed, or with values waiting to be received): both return
    nil; the ticker is released and is stopped exactly once when it was held
    and not at all when it was already released; and the error channel is
    closed at most once across both calls: exactly once when it was open
    with at most one sender waiting on it (by the first call when none
    waits, by the second when the first call has received the waiting
    value), and not at all when it was already closed. *)
Theorem shutdown_twice_is_safe (a : Auth) :
  exists a2 : Auth,
    shutdown_twice a = Returned None a2
    /\ refreshKeysTicker a2 = None
    /\ count_event EvTickerStop (log a2)
         = match refreshKeysTicker a with Some _ => 1 | None => 0 end
           + count_event EvTickerStop (log a)
    /\ count_event EvChanClose (log a2) <= S (count_event EvChanClose (log a))
    /\ (chan_closed (errorChan a) = false ->
        length (chan_senders (errorChan a)) <= 1 ->
        chan_closed (errorChan a2) = true
        /\ count_event EvChanClose (log a2) = S (count_event EvChanClose (log a)))
    /\ (chan_closed (errorChan a) = true ->
        chan_closed (errorChan a2) = true
        /\ count_event EvChanClose (log a2) = count_event EvChanClose (log a)).
Proof.
  destruct (shutdown_returns a) as (a1 & H1 & Ht1 & Hs1 & Hc1 & Hq1 & Hn1).
  destruct (shutdown_returns a1) as (a2 & H2 & Ht2 & Hs2 & Hc2 & _ & Hn2).
  exists a2. unfold shutdown_twice. rewrite H1.
  split; [exact H2|]. split; [exact Ht2|].
  rewrite Ht1 in Hs2. rewrite Hs2, Hn2, Hc2, Hs1, Hn1, Hc1, Hq1.
  destruct (refreshKeysTicker a); destruct (chan_closed (errorChan a));
    destruct (chan_senders (errorChan a)) as [|e [|e' rest]];
    simpl; repeat split; try lia; try discriminate; try reflexivity;
    intros; simpl in *; try lia; try discriminate.
Qed.

(** A started instance, with its ticker and its open channel, shut down
    twice; and an instance whose loop waits to send an error, shut down
    twice: the first call receives the error, the second closes the
    channel. *)
Lemma shutdown_twice_is_safe_witness :
  (exists a2 : Auth,
     shutdown_twice (fst (Start Examples.fresh)) = Returned None a2
     /\ chan_closed (errorChan a2) = true
     /\ count_event EvChanClose (log a2) = 1
     /\ count_event EvTickerStop (log a2) = 1)
  /\
  (exists a2 : Auth,
     shutdown_twice
       (set_errorChan (mkChan 0 false [Errorf "provider is down"])
          (fst (Start Examples.fresh)))
     = Returned None a2
     /\ chan_closed (errorChan a2) = true
     /\ count_event EvChanClose (log a2) = 1).
Proof.
  split.
  - destruct (shutdown_twice_is_safe (fst (Start Examples.fresh)))
      as (a2 & Hr & _ & Hstop & _ & Hopen & _).
    destruct Hopen as [Hclosed Hcount]; [reflexivity|simpl; lia|].
    exists a2. split; [exact Hr|]. split; [exact Hclosed|].
    split; [exact Hcount|exact Hstop].
  - destruct (shutdown_twice_is_safe
                (set_errorChan (mkChan 0 false [Errorf "provider is down"])
                   (fst (Start Examples.fresh))))
      as (a2 & Hr & _ & _ & _ & Hopen & _).
    destruct Hopen as [Hclosed Hcount]; [reflexivity|simpl; lia|].
    exists a2. split; [exact Hr|]. split; [exact Hclosed|exact Hcount].
Defined.

(** C8, as the claim words it, fails on the case it names itself: when the
    error channel is already closed (here by a first [shutdown] of a started
    instance), two further calls of [shutdown] return without closing it, so
    that the channel is closed zero times, not once, across both calls. *)
Lemma shutdown_twice_counterexample :
  chan_closed
    (errorChan (outcome_auth (shutdown (fst (Start Examples.fresh))))) = true
  /\ (exists a2 : Auth,
        shutdown_twice (outcome_auth (shutdown (fst (Start Examples.fresh))))
          = Returned None a2
        /\ count_event EvChanClose (log a2)
           = count_event EvChanClose
               (log (outcome_auth (shutdown (fst (Start Examples.fresh)))))
        /\ count_event EvChanClose (log a2)
           <> S (count_event EvChanClose
                   (log (outcome_auth (shutdown (fst (Start Examples.fresh)))))))
.
Proof.
  split; [reflexivity|].
  eexists. split; [reflexivity|]. split; [reflexivity|].
  vm_compute. discriminate.
Qed.

(** * Further properties *)

(** ** Trimming *)

Lemma append_nil (t : string) : String.append "" t = t.
Proof. reflexivity. Qed.

Lemma append_cons (c : ascii) (s t : string) :
  String.append (String c s) t = String c (String.append s t).
Proof. reflexivity. Qed.

Ltac push_append := rewrite ?append_cons, ?append_nil.

Lemma append_empty_r (s : string) : String.append s "" = s.
Proof. induction s as [|c s IH]; push_append; congruence. Qed.

Lemma append_assoc_s (a b c : string) :
  String.append (String.append a b) c = String.append a (String.append b c).
Proof. induction a as [|x a IH]; push_append; congruence. Qed.

Lemma rev_onto_append (s acc : string) :
  GoStrings.rev_onto s acc = String.append (GoStrings.rev_onto s "") acc.
Proof.
  revert acc. induction s as [|c s IH]; intros acc; simpl; [reflexivity|].
  rewrite (IH (String c acc)), (IH (String c "")), append_assoc_s. reflexivity.
Qed.

Lemma rev_onto_app (a b : string) :
  GoStrings.rev_onto (String.append a b) "" =
  String.append (GoStrings.rev_onto b "") (GoStrings.rev_onto a "").
Proof.
  induction a as [|c a IH]; push_append; simpl.
  - rewrite append_empty_r. reflexivity.
  - rewrite (rev_onto_append (String.append a b)), IH.
    rewrite (rev_onto_append a (String c "")), append_assoc_s. reflexivity.
Qed.

Lemma rev_onto_involutive (s : string) :
  GoStrings.rev_onto (GoStrings.rev_onto s "") "" = s.
Proof.
  induction s as [|c s IH]; simpl; [reflexivity|].
  rewrite (rev_onto_append s (String c "")), rev_onto_app, IH. reflexivity.
Qed.

(** Strong induction on the length of a string. *)
Lemma string_length_ind (P : string -> Prop) :
  (forall s, (forall t, String.length t < String.length s -> P t) -> P s) ->
  forall s, P s.
Proof.
  intros H s.
  assert (G : forall n t, String.length t < n -> P t).
  { induction n as [|n IH]; intros t Ht; [lia|].
    apply H. intros u Hu. apply IH. lia. }
  apply (G (S (String.length s))). lia.
Qed.

Lemma TrimLeft_no_lead (s : string) :
  leadSpace s = false -> GoStrings.TrimLeft s = s.
Proof.
  destruct s as [|c [|d [|e s3]]];
    cbn [leadSpace GoStrings.TrimLeft]; intros H; try reflexivity.
  - destruct (GoStrings.isSpace c); [discriminate H|reflexivity].
  - destruct (GoStrings.isSpace c); [discriminate H|].
    destruct (GoStrings.isSpace2 c d); [discriminate H|reflexivity].
  - destruct (GoStrings.isSpace c); [discriminate H|].
    destruct (GoStrings.isSpace2 c d); [discriminate H|].
    destruct (GoStrings.isSpace3 c d e); [discriminate H|reflexivity].
Qed.

Lemma TrimLeft_spec (s : string) :
  leadSpace (GoStrings.TrimLeft s) = false
  /\ exists w, s = String.append w (GoStrings.TrimLeft s).
Proof.
  induction s as [s IH] using string_length_ind.
  destruct (leadSpace s) eqn:Hl.
  - destruct s as [|c s1]; [discriminate|].
    cbn [GoStrings.TrimLeft]. cbn [leadSpace] in Hl.
    destruct (GoStrings.isSpace c).
    { destruct (IH s1) as [H1 [w Hw]]; [simpl; lia|].
      split; [exact H1|]. exists (String c w). push_append. congruence. }
    destruct s1 as [|d s2]; [discriminate|].
    destruct (GoStrings.isSpace2 c d).
    { destruct (IH s2) as [H1 [w Hw]]; [simpl; lia|].
      split; [exact H1|]. exists (String c (String d w)). push_append. congruence. }
    destruct s2 as [|e s3]; [discriminate|].
    cbn [orb] in Hl. rewrite Hl.
    destruct (IH s3) as [H1 [w Hw]]; [simpl; lia|].
    split; [exact H1|]. exists (String c (String d (String e w))). push_append. congruence.
  - rewrite (TrimLeft_no_lead s Hl). split; [exact Hl|]. exists "". reflexivity.
Qed.

Lemma TrimLeft_rev_no_lead (s : string) :
  leadSpace_rev s = false -> GoStrings.TrimLeft_rev s = s.
Proof.
  destruct s as [|c [|d [|e s3]]];
    cbn [leadSpace_rev GoStrings.TrimLeft_rev]; intros H; try reflexivity.
  - destruct (GoStrings.isSpace c); [discriminate H|reflexivity].
  - destruct (GoStrings.isSpace c); [discriminate H|].
    destruct (GoStrings.isSpace2 d c); [discriminate H|reflexivity].
  - destruct (GoStrings.isSpace c); [discriminate H|].
    destruct (GoStrings.isSpace2 d c); [discriminate H|].
    destruct (GoStrings.isSpace3 e d c); [discriminate H|reflexivity].
Qed.

Lemma TrimLeft_rev_spec (s : string) :
  leadSpace_rev (GoStrings.TrimLeft_rev s) = false
  /\ exists w, s = String.append w (GoStrings.TrimLeft_rev s).
Proof.
  induction s as [s IH] using string_length_ind.
  destruct (leadSpace_rev s) eqn:Hl.
  - destruct s as [|c s1]; [discriminate|].
    cbn [GoStrings.TrimLeft_rev]. cbn [leadSpace_rev] in Hl.
    destruct (GoStrings.isSpace c).
    { destruct (IH s1) as [H1 [w Hw]]; [simpl; lia|].
      split; [exact H1|]. exists (String c w). push_append. congruence. }
    destruct s1 as [|d s2]; [discriminate|].
    destruct (GoStrings.isSpace2 d c).
    { destruct (IH s2) as [H1 [w Hw]]; [simpl; lia|].
      split; [exact H1|]. exists (String c (String d w)). push_append. congruence. }
    destruct s2 as [|e s3]; [discriminate|].
    cbn [orb] in Hl. rewrite Hl.
    destruct (IH s3) as [H1 [w Hw]]; [simpl; lia|].
    split; [exact H1|]. exists (String c (String d (String e w))). push_append. congruence.
  - rewrite (TrimLeft_rev_no_lead s Hl). split; [exact Hl|]. exists "". reflexivity.
Qed.

(** A prefix of a string that does not begin with white space does not
    either. *)
Lemma leadSpace_prefix (p w : string) :
  leadSpace (String.append p w) = false -> leadSpace p = false.
Proof.
  destruct p as [|c [|d [|e p3]]]; push_append; cbn [leadSpace]; intros H;
    try reflexivity.
  - destruct (GoStrings.isSpace c); [discriminate H|reflexivity].
  - destruct (GoStrings.isSpace c); [discriminate H|].
    destruct w as [|e w]; [exact H|].
    destruct (GoStrings.isSpace2 c d); [discriminate H|reflexivity].
  - exact H.
Qed.

(** What [TrimSpace] returns neither begins nor ends with white space. *)
Lemma TrimSpace_spec (s : string) :
  leadSpace (GoStrings.TrimSpace s) = false
  /\ leadSpace_rev (GoStrings.rev_onto (GoStrings.TrimSpace s) "") = false.
Proof.
  unfold GoStrings.TrimSpace, GoStrings.TrimRight.
  destruct (TrimLeft_spec s) as [Hl _].
  set (t := GoStrings.TrimLeft s) in *.
  destruct (TrimLeft_rev_spec (GoStrings.rev_onto t "")) as [Hr [w Hw]].
  set (v := GoStrings.TrimLeft_rev (GoStrings.rev_onto t "")) in *.
  split.
  - apply (leadSpace_prefix _ (GoStrings.rev_onto w "")).
    rewrite <- rev_onto_app, <- Hw, rev_onto_involutive. exact Hl.
  - rewrite rev_onto_involutive. exact Hr.
Qed.

Lemma TrimSpace_idempotent (s : string) :
  GoStrings.TrimSpace (GoStrings.TrimSpace s) = GoStrings.TrimSpace s.
Proof.
  destruct (TrimSpace_spec s) as [Hl Hr].
  set (t := GoStrings.TrimSpace s) in *.
  unfold GoStrings.TrimSpace at 1. rewrite (TrimLeft_no_lead t Hl).
  unfold GoStrings.TrimRight. rewrite (TrimLeft_rev_no_lead _ Hr).
  apply rev_onto_involutive.
Qed.

(** ** [ExtractBearerToken] *)

Lemma length_zero_eqb (s : string) :
  (String.length s =? 0)%nat = String.eqb s "".
Proof. destruct s; reflexivity. Qed.

(** The two readings of the Authorization header, side by side. *)
Lemma Authenticate_via_extraction
    (lib : JWTLibrary) (tl : Timeline) (race : SelectCase) (r : Request) :
  match ExtractBearerToken r with
  | (token, true) =>
      token <> ""
      /\ Authenticate lib tl race (Some r) =
           match validateJWT lib tl race token with
           | (_, _, Some err) => (false, "", Some (Wrapf "failed to validate jwt" err))
           | (isValid, reason, None) => (isValid, reason, None)
           end
  | (token, false) =>
      token = ""
      /\ exists reason : string,
           In reason ["missing authorization header";
                      "malformed authorization header";
                      "missing bearer token"]
           /\ Authenticate lib tl race (Some r) = (false, reason, None)
  end.
Proof.
  unfold ExtractBearerToken, Authenticate.
  set (authHeader := Header_Get (Header r) "Authorization").
  destruct (String.eqb authHeader "").
  { split; [reflexivity|]. eexists. split; [left; reflexivity|reflexivity]. }
  destruct (GoStrings.HasPrefix (GoStrings.ToLower authHeader) "bearer "); simpl negb;
    cbv iota.
  2:{ split; [reflexivity|]. eexists.
      split; [right; left; reflexivity|reflexivity]. }
  rewrite length_zero_eqb.
  destruct (String.eqb_spec
              (GoStrings.TrimSpace (GoStrings.slice_from 7 authHeader)) "") as [E|E].
  - split; [reflexivity|]. eexists.
    split; [right; right; left; reflexivity|reflexivity].
  - split; [exact E|reflexivity].
Qed.

(** X1. [ExtractBearerToken] and [Authenticate] read the header alike: when
    [ExtractBearerToken] reports failure it returns the empty string and
    [Authenticate] rejects the request with one of its three header reasons
    and no error; when it reports success the token is not empty and the
    answer of [Authenticate] is the answer of [validateJWT] on that very
    token (an error of the validation wrapped, its reason dropped). *)
Theorem ExtractBearerToken_agrees_with_Authenticate
    (lib : JWTLibrary) (tl : Timeline) (race : SelectCase) (r : Request) :
  match ExtractBearerToken r with
  | (token, true) =>
      token <> ""
      /\ Authenticate lib tl race (Some r) =
           match validateJWT lib tl race token with
           | (_, _, Some err) => (false, "", Some (Wrapf "failed to validate jwt" err))
           | (isValid, reason, None) => (isValid, reason, None)
           end
  | (token, false) =>
      token = ""
      /\ exists reason : string,
           In reason ["missing authorization header";
                      "malformed authorization header";
                      "missing bearer token"]
           /\ Authenticate lib tl race (Some r) = (false, reason, None)
  end.
Proof. apply Authenticate_via_extraction. Qed.

(** X2. A token that [ExtractBearerToken] returns with success is not empty
    and has no white space around it: it neither begins nor ends with a
    white-space rune, and trimming it again changes nothing. *)
Theorem ExtractBearerToken_trimmed (r : Request) (token : string) :
  ExtractBearerToken r = (token, true) ->
  token <> ""
  /\ leadSpace token = false
  /\ leadSpace_rev (GoStrings.rev_onto token "") = false
  /\ GoStrings.TrimSpace token = token.
Proof.
  unfold ExtractBearerToken.
  set (authHeader := Header_Get (Header r) "Authorization").
  destruct (String.eqb authHeader ""); [discriminate|].
  destruct (negb _); [discriminate|].
  rewrite length_zero_eqb.
  destruct (String.eqb_spec
              (GoStrings.TrimSpace (GoStrings.slice_from 7 authHeader)) "") as [E|E];
    [discriminate|].
  intros H. inversion H as [Ht]. clear H.
  destruct (TrimSpace_spec (GoStrings.slice_from 7 authHeader)) as [Hl Hr].
  repeat split; try assumption. apply TrimSpace_idempotent.
Qed.

Lemma ExtractBearerToken_trimmed_witness :
  GoStrings.TrimSpace "eyJ.e30.c2ln" = "eyJ.e30.c2ln".
Proof.
  apply (ExtractBearerToken_trimmed
           (mkRequest {[ "Authorization" := ["bEaReR   eyJ.e30.c2ln  "] ]})
           "eyJ.e30.c2ln").
  reflexivity.
Defined.

(** ** The authenticated transport *)

Lemma Header_Get_Set (h : gmap string (list string)) (key value : string) :
  Header_Get (Header_Set h key value) key = value.
Proof. unfold Header_Get, Header_Set. rewrite lookup_insert_eq. reflexivity. Qed.

Lemma HasPrefix_empty (s : string) : GoStrings.HasPrefix s "" = true.
Proof. destruct s; reflexivity. Qed.

Lemma bearer_value (tok : string) :
  String.append "Bearer " tok
  = String "B" (String "e" (String "a" (String "r" (String "e" (String "r"
      (String " " tok)))))).
Proof. reflexivity. Qed.

Section Transport.

Context {Resp : Type}.
Variable ac : AuthClient Resp.
Variable cached : option AccessToken * bool.
Variable wait : RefreshWait.
Variable r : Request.
Variable hasBody : bool.

(** X3. When [RoundTrip] hands the request to the underlying round tripper,
    it has obtained a non-empty access token, the Authorization header of the
    request holds the single value "Bearer " followed by that token (whatever
    it held before), every other header is as it was, and what [RoundTrip]
    returns is what the round tripper returned for that request. *)
Theorem RoundTrip_forwards_with_bearer :
  rt_forwarded (RoundTrip ac cached wait r hasBody) = true ->
  exists (t : AccessToken) (rt : Request -> option Resp * option error),
    getAccessTokenWithTimeout cached wait = (Some t, None)
    /\ Token t <> ""
    /\ roundTripper ac = Some rt
    /\ Header (rt_request (RoundTrip ac cached wait r hasBody)) !! "Authorization"
         = Some [String.append "Bearer " (Token t)]
    /\ (forall k, k <> "Authorization" ->
          Header (rt_request (RoundTrip ac cached wait r hasBody)) !! k
            = Header r !! k)
    /\ (rt_response (RoundTrip ac cached wait r hasBody),
        rt_err (RoundTrip ac cached wait r hasBody))
         = rt (rt_request (RoundTrip ac cached wait r hasBody)).
Proof.
  unfold RoundTrip.
  destruct (getAccessTokenWithTimeout cached wait) as [[t|] [e|]];
    try (simpl; discriminate).
  rewrite length_zero_eqb.
  destruct (String.eqb_spec (Token t) "") as [E|E]; [simpl; discriminate|].
  destruct (roundTripper ac) as [rt|]; [|simpl; discriminate].
  destruct (rt _) as [resp err] eqn:Hrt. simpl. intros _.
  exists t, rt. repeat split; try assumption.
  - unfold Header_Set. apply lookup_insert_eq.
  - intros k Hk. unfold Header_Set. apply lookup_insert_ne. congruence.
  - symmetry. exact Hrt.
Qed.

(** X4. Nothing is sent without a token.  When no non-empty access token is
    obtained (the refresh failed, the wait timed out, or the token is nil or
    empty), [RoundTrip] does not call the round tripper, leaves the request
    as it was and returns an error; whenever the round tripper is not called
    the response is nil and the error is not; and the body of the request is
    closed on every path. *)
Theorem RoundTrip_without_token :
  ((forall t, getAccessTokenWithTimeout cached wait = (Some t, None) -> Token t = "") ->
     rt_forwarded (RoundTrip ac cached wait r hasBody) = false
     /\ rt_request (RoundTrip ac cached wait r hasBody) = r)
  /\ (rt_forwarded (RoundTrip ac cached wait r hasBody) = false ->
        rt_response (RoundTrip ac cached wait r hasBody) = None
        /\ rt_err (RoundTrip ac cached wait r hasBody) <> None)
  /\ rt_body_closed (RoundTrip ac cached wait r hasBody) = hasBody.
Proof.
  unfold RoundTrip.
  destruct (getAccessTokenWithTimeout cached wait) as [[t|] [e|]];
    try (simpl; split; [intros _; split; reflexivity
                       |split; [intros _; split; [reflexivity|discriminate]
                               |reflexivity]]).
  rewrite length_zero_eqb.
  destruct (String.eqb_spec (Token t) "") as [E|E].
  { simpl. split; [intros _; split; reflexivity|].
    split; [intros _; split; [reflexivity|discriminate]|reflexivity]. }
  assert (Hno : ~ (forall t0, (Some t, @None error) = (Some t0, None) -> Token t0 = "")).
  { intros H. apply E. apply H. reflexivity. }
  destruct (roundTripper ac) as [rt|].
  - destruct (rt _) as [resp err]. simpl.
    split; [intros H; contradiction|].
    split; [discriminate|reflexivity].
  - simpl. split; [intros H; contradiction|].
    split; [intros _; split; [reflexivity|discriminate]|reflexivity].
Qed.

(** X5. The receiving side reads back what the transport attached: from a
    request that [RoundTrip] handed on, [ExtractBearerToken] returns the
    access token trimmed of surrounding white space, and fails when nothing
    but white space is left of it. *)
Theorem RoundTrip_then_ExtractBearerToken :
  rt_forwarded (RoundTrip ac cached wait r hasBody) = true ->
  exists t : AccessToken,
    getAccessTokenWithTimeout cached wait = (Some t, None)
    /\ ExtractBearerToken (rt_request (RoundTrip ac cached wait r hasBody))
         = (if String.eqb (GoStrings.TrimSpace (Token t)) "" then ("", false)
            else (GoStrings.TrimSpace (Token t), true)).
Proof.
  unfold RoundTrip.
  destruct (getAccessTokenWithTimeout cached wait) as [[t|] [e|]];
    try (simpl; discriminate).
  rewrite length_zero_eqb.
  destruct (String.eqb_spec (Token t) "") as [E|E]; [simpl; discriminate|].
  destruct (roundTripper ac) as [rt|]; [|simpl; discriminate].
  destruct (rt _) as [resp err]. simpl. intros _.
  exists t. split; [reflexivity|].
  unfold ExtractBearerToken. simpl Header. rewrite Header_Get_Set.
  rewrite length_zero_eqb, (bearer_value (Token t)).
  cbn -[GoStrings.TrimSpace]. rewrite HasPrefix_empty. reflexivity.
Qed.

End Transport.

(** A client with a cached token ["abc"] in front of a round tripper that
    answers 200, and a client whose wait for a refresh times out. *)
Lemma RoundTrip_forwards_with_bearer_witness :
  Header (rt_request
            (RoundTrip (mkAuthClient (Some (fun _ => (Some 200%Z, None))))
               (Some (mkAccessToken "abc" 0%Z), true) WaitTimeout
               (mkRequest {[ "Authorization" := ["Basic old"] ]}) false))
    !! "Authorization"
  = Some ["Bearer abc"].
Proof.
  destruct (RoundTrip_forwards_with_bearer
              (mkAuthClient (Some (fun _ => (Some 200%Z, None))))
              (Some (mkAccessToken "abc" 0%Z), true) WaitTimeout
              (mkRequest {[ "Authorization" := ["Basic old"] ]}) false eq_refl)
    as (t & rt & Hg & _ & _ & Hh & _).
  rewrite Hh. injection Hg as <-. reflexivity.
Defined.

Lemma RoundTrip_without_token_witness :
  rt_forwarded
    (RoundTrip (mkAuthClient (Some (fun _ => (Some 200%Z, None))))
       (None, false) WaitTimeout (mkRequest ∅) true) = false
  /\ rt_request
       (RoundTrip (mkAuthClient (Some (fun _ => (Some 200%Z, None))))
          (None, false) WaitTimeout (mkRequest ∅) true) = mkRequest ∅.
Proof.
  apply (RoundTrip_without_token
           (mkAuthClient (Some (fun _ => (Some 200%Z, None))))
           (None, false) WaitTimeout (mkRequest ∅) true).
  intros t H. discriminate H.
Defined.

Lemma RoundTrip_then_ExtractBearerToken_witness :
  ExtractBearerToken
    (rt_request
       (RoundTrip (mkAuthClient (Some (fun _ => (Some 200%Z, None))))
          (None, false) (RefreshResult (Some (mkAccessToken " abc " 0%Z)) None)
          (mkRequest ∅) false))
  = ("abc", true).
Proof.
  destruct (RoundTrip_then_ExtractBearerToken
              (mkAuthClient (Some (fun _ => (Some 200%Z, None))))
              (None, false) (RefreshResult (Some (mkAccessToken " abc " 0%Z)) None)
              (mkRequest ∅) false eq_refl) as (t & Hg & He).
  rewrite He. injection Hg as <-. reflexivity.
Defined.

(** ** The key cache across refreshes *)

Lemma Key_Validate_fields (k : Key) :
  Key_Validate k = None ->
  Kid k <> "" /\ Iat k <> 0%Z /\ Exp k <> 0%Z /\ Alg k <> "" /\ Pem k <> "".
Proof.
  unfold Key_Validate.
  destruct (String.eqb_spec (Kid k) ""); [discriminate|].
  destruct (Z.eqb_spec (Iat k) 0); [discriminate|].
  destruct (Z.eqb_spec (Exp k) 0); [discriminate|].
  destruct (String.eqb_spec (Alg k) ""); [discriminate|].
  destruct (String.eqb_spec (Pem k) ""); [discriminate|].
  intros _. repeat split; assumption.
Qed.

Lemma build_keyMap_cache_valid (batch : list Key) (m m' : gmap string Key) :
  build_keyMap batch m = inr m' ->
  (forall id k, m !! id = Some k -> Kid k = id /\ Key_Validate k = None) ->
  forall id k, m' !! id = Some k -> Kid k = id /\ Key_Validate k = None.
Proof.
  revert m. induction batch as [|key rest IH]; intros m Hb Hm; simpl in Hb.
  - inversion Hb; subst. exact Hm.
  - destruct (Key_Validate key) eqn:Hv; [discriminate|].
    apply (IH _ Hb). intros id k Hk.
    destruct (String.eqb_spec (Kid key) id) as [E|E].
    + subst id. rewrite lookup_insert_eq in Hk. inversion Hk; subst.
      split; [reflexivity|exact Hv].
    + rewrite lookup_insert_ne in Hk by exact E. apply Hm. exact Hk.
Qed.

Lemma refreshKeys_cache_valid (a : Auth) :
  cache_valid a -> cache_valid (fst (refreshKeys a)).
Proof.
  intros Hc. unfold refreshKeys.
  destruct (RefreshKeys (authProvider a) (count_event EvRefreshKeys (log a)))
    as [[batch nextRefresh] [e|]].
  - exact Hc.
  - destruct (build_keyMap batch ∅) as [e|m] eqn:Hb; [exact Hc|].
    intros id k Hk. unfold keyWithID in Hk. simpl in Hk.
    destruct (build_keyMap_cache_valid batch ∅ m Hb) with (id := id) (k := k)
      as [Hid Hv].
    + intros id' k' H. rewrite lookup_empty in H. discriminate.
    + exact Hk.
    + split; [exact Hid|]. apply Key_Validate_fields. exact Hv.
Qed.

(** X6. The cache holds well-formed keys only.  On an instance made by [New],
    after any number of key refreshes (failed or not, whatever the provider
    answers), every key that [keyWithID] finds is stored under its own [Kid]
    and has a non-empty [Kid], [Alg] and [Pem] and a non-zero [Iat] and
    [Exp]. *)
Theorem cache_valid_after_refreshes
    (ctx : option unit) (config : Config) (fresh_chan : nat) (a : Auth) (n : nat) :
  New ctx config fresh_chan = (Some a, None) ->
  cache_valid (refreshes n a).
Proof.
  intros Hnew.
  assert (H0 : cache_valid a).
  { unfold New in Hnew. destruct ctx; [|discriminate].
    destruct (Config_AuthProvider config); [|discriminate].
    inversion Hnew; subst. intros id k Hk. unfold keyWithID in Hk. simpl in Hk.
    rewrite lookup_empty in Hk. discriminate. }
  clear Hnew. revert a H0. induction n as [|n IH]; intros a H0; [exact H0|].
  simpl. apply IH. apply refreshKeys_cache_valid. exact H0.
Qed.

(** After the three answers of the example provider (a good batch, a batch
    with a malformed key, a failure) the cached key k1 is well formed. *)
Lemma cache_valid_after_refreshes_witness :
  Kid Examples.k1 = "k1" /\ Kid Examples.k1 <> "" /\ Iat Examples.k1 <> 0%Z
  /\ Exp Examples.k1 <> 0%Z /\ Alg Examples.k1 <> "" /\ Pem Examples.k1 <> "".
Proof.
  apply (cache_valid_after_refreshes (Some tt)
           (mkConfig (Some Examples.provider)) 0 Examples.fresh 3 eq_refl "k1").
  reflexivity.
Defined.

(** ** The two channels of [validateJWT] and [Authenticate] *)

Lemma classify_outcomes (err : error) :
  (exists reason, In reason client_reasons /\ classify err = (false, reason, None))
  \/ classify err = (false, "", Some err).
Proof.
  unfold classify, client_reasons.
  repeat match goal with
         | |- context [if errors_Is err ?s then _ else _] =>
             destruct (errors_Is err s);
             [left; eexists; split; [|reflexivity]; simpl; tauto|]
         end.
  right. reflexivity.
Qed.

Lemma classify_rejects (err : error) (reason : string) (e : option error) :
  classify err <> (true, reason, e).
Proof.
  destruct (classify_outcomes err) as [[x [_ H]]|H]; rewrite H; discriminate.
Qed.

Lemma client_reasons_nonempty (reason : string) :
  In reason client_reasons -> reason <> "".
Proof.
  unfold client_reasons. simpl. intros H.
  repeat (destruct H as [<-|H]; [discriminate|]). destruct H.
Qed.

Lemma validateJWT_outcomes
    (lib : JWTLibrary) (tl : Timeline) (race : SelectCase) (tokenString : string) :
  validateJWT lib tl race tokenString = (true, "", None)
  \/ (exists reason, In reason client_reasons
        /\ validateJWT lib tl race tokenString = (false, reason, None))
  \/ (exists err, validateJWT lib tl race tokenString = (false, "", Some err)).
Proof.
  unfold validateJWT.
  destruct (jwt_Parse lib tokenString (keyFunc lib tl race)) as [err|token].
  - destruct (classify_outcomes err) as [H|H]; [right; left; exact H|].
    right. right. eauto.
  - destruct (Valid token); simpl.
    + left. reflexivity.
    + right. left. exists "token is not valid". split; [|reflexivity].
      unfold client_reasons. simpl. tauto.
Qed.

(** The three shapes of an answer of [Authenticate]. *)
Lemma Authenticate_three_outcomes
    (lib : JWTLibrary) (tl : Timeline) (race : SelectCase) (r : option Request) :
  Authenticate lib tl race r = (true, "", None)
  \/ (exists reason,
        In reason client_reasons /\ reason <> ""
        /\ Authenticate lib tl race r = (false, reason, None))
  \/ (exists err, Authenticate lib tl race r = (false, "", Some err)).
Proof.
  destruct r as [r|]; [|right; right; eexists; reflexivity].
  pose proof (Authenticate_via_extraction lib tl race r) as H.
  destruct (ExtractBearerToken r) as [token [|]].
  - destruct H as [_ H]. rewrite H.
    destruct (validateJWT_outcomes lib tl race token)
      as [Hv|[[reason [Hin Hv]]|[err Hv]]]; rewrite Hv.
    + left. reflexivity.
    + right. left. exists reason.
      split; [exact Hin|]. split; [apply client_reasons_nonempty; exact Hin|reflexivity].
    + right. right. eexists. reflexivity.
  - destruct H as [_ [reason [Hin H]]]. right. left. exists reason.
    assert (Hin' : In reason client_reasons).
    { unfold client_reasons. simpl in *. tauto. }
    split; [exact Hin'|]. split; [apply client_reasons_nonempty; exact Hin'|exact H].
Qed.

(** X7. The answer of [Authenticate], for every request (nil or not), every
    token and every state of the cache, is one of three: authenticated with
    an empty reason and no error; not authenticated, with no error and a
    reason that is one of thirteen fixed texts (none of them empty, none
    built from an error or from the request); or not authenticated with an
    empty reason and an error. *)
Theorem Authenticate_outcomes
    (lib : JWTLibrary) (tl : Timeline) (race : SelectCase) (r : option Request) :
  Authenticate lib tl race r = (true, "", None)
  \/ (exists reason,
        In reason client_reasons /\ reason <> ""
        /\ Authenticate lib tl race r = (false, reason, None))
  \/ (exists err, Authenticate lib tl race r = (false, "", Some err)).
Proof. apply Authenticate_three_outcomes. Qed.

(** X8. [validateJWT] accepts a token exactly when golang-jwt hands it to the
    key function, its header names a non-empty [kid] that [awaitKey] resolves
    to a cached key whose [Alg] equals the [alg] of the header (ignoring
    ASCII case), the PEM text of that key parses, the signature verifies
    under the parsed key and the claims validate.  In no other case is the
    first component of its answer true. *)
Theorem validateJWT_accepts_iff
    (lib : JWTLibrary) (tl : Timeline) (race : SelectCase) (tokenString : string) :
  (exists reason err, validateJWT lib tl race tokenString = (true, reason, err))
  <->
  (exists (header : gmap string JSONValue) (alg kid : string) (key : Key)
          (waited : nat) (publicKey : PublicKey lib),
     reaches_keyFunc lib tokenString header alg
     /\ alg <> ""
     /\ header !! "kid" = Some (JString kid)
     /\ kid <> ""
     /\ awaitKey tl race kid = (Some key, true, waited)
     /\ GoStrings.ToLower (Alg key) = GoStrings.ToLower alg
     /\ ParseRSAPublicKeyFromPEM lib (Pem key) = inr publicKey
     /\ Verify lib tokenString publicKey = None
     /\ validateClaims lib tokenString = None).
Proof.
  split.
  - intros (reason & err & H). revert H.
    unfold validateJWT, jwt_Parse, jwt_ParseUnverified.
    destruct (decodeSegments lib tokenString) as [header|] eqn:Hd;
      [|intros H; exfalso; exact (classify_rejects _ _ _ H)].
    destruct (header !! "alg") as [[alg| | | | |]|] eqn:Ha;
      try (intros H; exfalso; exact (classify_rejects _ _ _ H)).
    destruct (GetSigningMethod lib alg) eqn:Hm;
      [|intros H; exfalso; exact (classify_rejects _ _ _ H)].
    destruct (decodeSignature lib tokenString) eqn:Hs; simpl negb; cbv iota;
      [|intros H; exfalso; exact (classify_rejects _ _ _ H)].
    unfold keyFunc, header_string. simpl Token_Header. rewrite Ha.
    destruct (String.eqb_spec alg "") as [Ealg|Ealg];
      [intros H; exfalso; exact (classify_rejects _ _ _ H)|].
    destruct (header !! "kid") as [[kid| | | | |]|] eqn:Hk;
      try (intros H; exfalso; exact (classify_rejects _ _ _ H)).
    destruct (String.eqb_spec kid "") as [Ekid|Ekid];
      [intros H; exfalso; exact (classify_rejects _ _ _ H)|].
    destruct (awaitKey tl race kid) as [[[key|] [|]] waited] eqn:Hw;
      try (intros H; exfalso; exact (classify_rejects _ _ _ H)).
    destruct (String.eqb_spec (GoStrings.ToLower (Alg key)) (GoStrings.ToLower alg))
      as [Esame|Esame]; simpl negb; cbv iota;
      [|intros H; exfalso; exact (classify_rejects _ _ _ H)].
    destruct (ParseRSAPublicKeyFromPEM lib (Pem key)) as [e|publicKey] eqn:Hpem;
      [intros H; exfalso; exact (classify_rejects _ _ _ H)|].
    destruct (Verify lib tokenString publicKey) as [e|] eqn:Hv;
      [intros H; exfalso; exact (classify_rejects _ _ _ H)|].
    destruct (validateClaims lib tokenString) as [e|] eqn:Hc;
      [intros H; exfalso; exact (classify_rejects _ _ _ H)|].
    intros _. exists header, alg, kid, key, waited, publicKey.
    unfold reaches_keyFunc. repeat split; assumption.
  - intros (header & alg & kid & key & waited & publicKey
            & (Hd & Ha & Hm & Hs) & Ealg & Hk & Ekid & Hw & Esame & Hpem & Hv & Hc).
    exists "", None.
    unfold validateJWT, jwt_Parse, jwt_ParseUnverified.
    rewrite Hd, Ha, Hm, Hs. simpl negb. cbv iota.
    unfold keyFunc, header_string. simpl Token_Header. rewrite Ha, Hk.
    destruct (String.eqb_spec alg "") as [E|_]; [contradiction|].
    destruct (String.eqb_spec kid "") as [E|_]; [contradiction|].
    rewrite Hw, Esame, String.eqb_refl. simpl negb. cbv iota.
    rewrite Hpem, Hv, Hc. reflexivity.
Qed.

Lemma validateJWT_accepts_iff_witness :
  exists (header : gmap string JSONValue) (alg kid : string) (key : Key)
         (waited : nat) (publicKey : PublicKey Examples.library),
    reaches_keyFunc Examples.library Examples.tok_RS256_k1 header alg
    /\ alg <> ""
    /\ header !! "kid" = Some (JString kid)
    /\ kid <> ""
    /\ awaitKey (Examples.still Examples.loaded 1000%Z) TickerC kid
         = (Some key, true, waited)
    /\ GoStrings.ToLower (Alg key) = GoStrings.ToLower alg
    /\ ParseRSAPublicKeyFromPEM Examples.library (Pem key) = inr publicKey
    /\ Verify Examples.library Examples.tok_RS256_k1 publicKey = None
    /\ validateClaims Examples.library Examples.tok_RS256_k1 = None.
Proof.
  apply (proj1 (validateJWT_accepts_iff Examples.library
                  (Examples.still Examples.loaded 1000%Z) TickerC
                  Examples.tok_RS256_k1)).
  exists "", None. reflexivity.
Defined.

(** ** The endpoint wrappers *)

Section Endpoints.

Context {Resp : Type}.
Variable lib : JWTLibrary.
Variable tl : Timeline.
Variable race : SelectCase.
Variable a : Auth.
Variable handler : Request -> option Resp.
Variable authRequirements : list AuthRequirements.
Variable r : Request.

(** X9. The handler of an authenticated endpoint answers a request exactly
    when the request is authenticated, the provider authorizes it for the
    combined requirement without error, and the handler returns a response;
    that response is then what is sent. *)
Theorem wrappedHandler_handles_iff (resp : Resp) :
  wrappedHandler lib tl race a handler authRequirements r = Handled resp
  <->
  Authenticate lib tl race (Some r) = (true, "", None)
  /\ AuthorizeRequest (authProvider a) r (aggregate authRequirements) = (true, None)
  /\ handler r = Some resp.
Proof.
  unfold wrappedHandler, Authorize.
  destruct (Authenticate_three_outcomes lib tl race (Some r))
    as [Ha|[[reason [_ [_ Ha]]]|[err Ha]]]; rewrite Ha.
  - destruct (AuthorizeRequest (authProvider a) r (aggregate authRequirements))
      as [[|] [e|]]; try (split; [discriminate|intros (_ & H & _); discriminate]).
    destruct (handler r) as [resp'|].
    + split.
      * intros H. inversion H; subst. repeat split.
      * intros (_ & _ & H). inversion H; subst. reflexivity.
    + split; [discriminate|intros (_ & _ & H); discriminate].
  - split; [discriminate|intros (H & _); discriminate].
  - split; [discriminate|intros (H & _); discriminate].
Qed.

(** X10. Whatever an authenticated endpoint sends without calling through to
    its handler's response is a fixed text: 500 with "internal server error",
    403 with "forbidden", or 401 with "unauthorized: " followed by one of the
    thirteen reasons of [Authenticate].  No text of an error (of the
    validation, of the provider) and nothing of the token reaches the
    client. *)
Theorem wrappedHandler_status_is_fixed (code : Z) (message : string) :
  wrappedHandler lib tl race a handler authRequirements r = Status code message ->
  (code = 500%Z /\ message = "internal server error")
  \/ (code = 403%Z /\ message = "forbidden")
  \/ (code = 401%Z
      /\ exists reason, In reason client_reasons
           /\ message = String.append "unauthorized" (String.append ": " reason)).
Proof.
  unfold wrappedHandler, Authorize.
  destruct (Authenticate_three_outcomes lib tl race (Some r))
    as [Ha|[[reason [Hin [Hne Ha]]]|[err Ha]]]; rewrite Ha.
  - destruct (AuthorizeRequest (authProvider a) r (aggregate authRequirements))
      as [[|] [e|]].
    + intros H. inversion H. left. split; reflexivity.
    + destruct (handler r); intros H; inversion H. left. split; reflexivity.
    + intros H. inversion H. left. split; reflexivity.
    + intros H. inversion H. right. left. split; reflexivity.
  - destruct (String.eqb_spec reason "") as [E|_]; [contradiction|].
    intros H. inversion H. right. right. split; [reflexivity|].
    exists reason. split; [exact Hin|reflexivity].
  - intros H. inversion H. left. split; reflexivity.
Qed.

(** X11. A service endpoint is an authenticated endpoint behind one more
    gate.  An authenticated request that the provider does not recognise as
    coming from a service gets 403 "forbidden: restricted to services",
    whatever the requirements, whatever the provider would answer to
    [AuthorizeRequest] and whatever the handler would return; a request is
    handled only if
    the provider recognises it as a service request; and for a request it
    does recognise, whose handler returns a response, the service endpoint
    sends what the authenticated endpoint would. *)
Theorem wrappedHandler_service_gate :
  (forall reason,
     Authenticate lib tl race (Some r) = (true, reason, None) ->
     IsServiceRequest (authProvider a) r = false ->
     wrappedHandler_service lib tl race a handler authRequirements r
       = Status 403%Z "forbidden: restricted to services")
  /\ (forall resp,
        wrappedHandler_service lib tl race a handler authRequirements r = Handled resp ->
        IsServiceRequest (authProvider a) r = true
        /\ wrappedHandler lib tl race a handler authRequirements r = Handled resp)
  /\ (IsServiceRequest (authProvider a) r = true ->
      handler r <> None ->
      wrappedHandler_service lib tl race a handler authRequirements r
        = wrappedHandler lib tl race a handler authRequirements r).
Proof.
  unfold wrappedHandler_service, wrappedHandler.
  split; [|split].
  - intros reason Ha Hs. rewrite Ha, Hs. reflexivity.
  - intros resp.
    destruct (Authenticate lib tl race (Some r)) as [[[|] reason] [e|]];
      try discriminate.
    destruct (IsServiceRequest (authProvider a) r); simpl negb; cbv iota;
      [|discriminate].
    destruct (Authorize a (Some r) (aggregate authRequirements)) as [[|] [e|]];
      try discriminate.
    destruct (handler r); [|discriminate].
    intros H. split; [reflexivity|exact H].
  - intros Hs Hh. rewrite Hs. simpl negb. cbv iota.
    destruct (Authenticate lib tl race (Some r)) as [[[|] reason] [e|]];
      try reflexivity.
    destruct (Authorize a (Some r) (aggregate authRequirements)) as [[|] [e|]];
      try reflexivity.
    destruct (handler r); [reflexivity|contradiction].
Qed.

End Endpoints.

Lemma wrappedHandler_handles_iff_witness :
  wrappedHandler Examples.library (Examples.still Examples.loaded 1000%Z) TickerC
    Examples.loaded (fun _ => Some 200%Z) [mkAuthRequirements ["admin"] []]
    (Examples.bearer Examples.tok_RS256_k1)
  = Handled 200%Z.
Proof.
  apply (wrappedHandler_handles_iff Examples.library
           (Examples.still Examples.loaded 1000%Z) TickerC Examples.loaded
           (fun _ => Some 200%Z) [mkAuthRequirements ["admin"] []]
           (Examples.bearer Examples.tok_RS256_k1) 200%Z).
  repeat split.
Defined.

Lemma wrappedHandler_status_is_fixed_witness :
  (401%Z = 500%Z /\ "unauthorized: key not found" = "internal server error")
  \/ (401%Z = 403%Z /\ "unauthorized: key not found" = "forbidden")
  \/ (401%Z = 401%Z
      /\ exists reason, In reason client_reasons
           /\ "unauthorized: key not found"
              = String.append "unauthorized" (String.append ": " reason)).
Proof.
  apply (wrappedHandler_status_is_fixed Examples.library
           (Examples.still Examples.fresh zeroTime) TickerC Examples.fresh
           (fun _ => Some 200%Z) [] (Examples.bearer Examples.tok_RS256_k1)).
  reflexivity.
Defined.

Lemma wrappedHandler_service_gate_witness :
  wrappedHandler_service Examples.library (Examples.still Examples.loaded 1000%Z)
    TickerC Examples.loaded (fun _ => Some 200%Z) [mkAuthRequirements ["admin"] []]
    (Examples.bearer Examples.tok_RS256_k1)
  = Status 403%Z "forbidden: restricted to services".
Proof.
  destruct (wrappedHandler_service_gate Examples.library
              (Examples.still Examples.loaded 1000%Z) TickerC Examples.loaded
              (fun _ => Some 200%Z) [mkAuthRequirements ["admin"] []]
              (Examples.bearer Examples.tok_RS256_k1)) as [H _].
  apply (H ""); reflexivity.
Defined.

(** ** The refresh loop *)

Lemma refreshKeys_log (a : Auth) :
  log (fst (refreshKeys a)) = EvRefreshKeys :: log a.
Proof.
  unfold refreshKeys.
  destruct (RefreshKeys (authProvider a) (count_event EvRefreshKeys (log a)))
    as [[batch nextRefresh] [e|]]; [reflexivity|].
  destruct (build_keyMap batch ∅); reflexivity.
Qed.

Lemma refreshKeys_errorChan (a : Auth) :
  errorChan (fst (refreshKeys a)) = errorChan a.
Proof.
  unfold refreshKeys.
  destruct (RefreshKeys (authProvider a) (count_event EvRefreshKeys (log a)))
    as [[batch nextRefresh] [e|]]; [reflexivity|].
  destruct (build_keyMap batch ∅); reflexivity.
Qed.

(** A refresh whose batch is valid returns nil and installs the time of the
    next refresh. *)
Lemma refreshKeys_valid_batch
    (a a' : Auth) (batch : list Key) (nextRefresh : Time) (err : option error) :
  RefreshKeys (authProvider a) (count_event EvRefreshKeys (log a))
    = (batch, nextRefresh, None) ->
  refreshKeys a = (a', err) ->
  (forall k, In k batch -> Key_Validate k = None) ->
  err = None /\ nextKeyRefresh a' = nextRefresh.
Proof.
  intros Hp Hr Hall. unfold refreshKeys in Hr. rewrite Hp in Hr.
  destruct (build_keyMap_valid batch ∅ Hall) as [m' [Hb _]].
  rewrite Hb in Hr. inversion Hr; subst. split; reflexivity.
Qed.

(** What a tick of the key ticker does to the count of provider calls. *)
Lemma KeysTick_calls (f : Auth -> Auth) (now : Time) (a : Auth) :
  count_event EvRefreshKeys (log (outcome_auth (refreshLoop_step f (KeysTick now) a)))
  = (if Time_After now (nextKeyRefresh a) then 1 else 0)
    + count_event EvRefreshKeys (log a).
Proof.
  unfold refreshLoop_step.
  destruct (Time_After now (nextKeyRefresh a)); [|reflexivity].
  pose proof (refreshKeys_log a) as Hl.
  destruct (refreshKeys a) as [a1 [e|]]; simpl in Hl.
  - destruct (chan_send e (errorChan a1)); simpl; rewrite Hl; reflexivity.
  - simpl. rewrite Hl. reflexivity.
Qed.

(** X12. The provider sets the pace of the key refreshes.  A tick of the key
    ticker that comes no later than [nextKeyRefresh] changes nothing and
    calls nobody; a tick that comes after it calls the provider once, and
    when the batch is valid the time that the provider returned becomes the
    new [nextKeyRefresh], so that every later tick up to that time is idle
    again. *)
Theorem KeysTick_follows_schedule
    (f : Auth -> Auth) (a : Auth) (now : Time)
    (batch : list Key) (nextRefresh : Time) :
  (forall now', (now' <= nextKeyRefresh a)%Z ->
     refreshLoop_step f (KeysTick now') a = Returned Continue a)
  /\
  ((nextKeyRefresh a < now)%Z ->
   RefreshKeys (authProvider a) (count_event EvRefreshKeys (log a))
     = (batch, nextRefresh, None) ->
   (forall k, In k batch -> Key_Validate k = None) ->
   exists a1,
     refreshLoop_step f (KeysTick now) a = Returned Continue a1
     /\ nextKeyRefresh a1 = nextRefresh
     /\ count_event EvRefreshKeys (log a1) = S (count_event EvRefreshKeys (log a))
     /\ forall now', (now' <= nextRefresh)%Z ->
          refreshLoop_step f (KeysTick now') a1 = Returned Continue a1).
Proof.
  assert (Hidle : forall (x : Auth) now', (now' <= nextKeyRefresh x)%Z ->
            refreshLoop_step f (KeysTick now') x = Returned Continue x).
  { intros x now' H. unfold refreshLoop_step, Time_After.
    destruct (Z.ltb_spec (nextKeyRefresh x) now'); [lia|reflexivity]. }
  split; [apply Hidle|].
  intros Hdue Hp Hall.
  destruct (refreshKeys a) as [a1 err] eqn:Hr.
  destruct (refreshKeys_valid_batch a a1 batch nextRefresh err Hp Hr Hall)
    as (He & Hn). subst err.
  exists a1. split; [|split; [exact Hn|split]].
  - unfold refreshLoop_step, Time_After.
    destruct (Z.ltb_spec (nextKeyRefresh a) now); [|lia]. rewrite Hr. reflexivity.
  - pose proof (refreshKeys_log a) as Hl. rewrite Hr in Hl. simpl in Hl.
    rewrite Hl. reflexivity.
  - intros now' H. apply Hidle. rewrite Hn. exact H.
Qed.

Lemma KeysTick_follows_schedule_witness :
  exists a1,
    refreshLoop_step (fun x => x) (KeysTick 1000%Z) Examples.fresh
      = Returned Continue a1
    /\ nextKeyRefresh a1 = 2000%Z
    /\ count_event EvRefreshKeys (log a1) = 1
    /\ forall now', (now' <= 2000)%Z ->
         refreshLoop_step (fun x => x) (KeysTick now') a1 = Returned Continue a1.
Proof.
  destruct (KeysTick_follows_schedule (fun x => x) Examples.fresh 1000%Z
              [Examples.k1] 2000%Z) as [_ H].
  apply H.
  - reflexivity.
  - reflexivity.
  - intros k [<-|[]]. reflexivity.
Defined.

(** X13. A failed key refresh is retried at the next tick.  When a tick
    after [nextKeyRefresh] finds the provider failing (an error, or a batch
    with a key that fails [Validate]) and the error channel is open, the loop
    goes on with the keys and [nextKeyRefresh] it had, and its error waits on
    the error channel; once the consumer has received it, every tick at that
    time or later is due again and calls the provider once more. *)
Theorem KeysTick_retries_after_failure
    (f : Auth -> Auth) (a : Auth) (now : Time)
    (batch : list Key) (nextRefresh : Time) (perr : option error) :
  (nextKeyRefresh a < now)%Z ->
  chan_closed (errorChan a) = false ->
  RefreshKeys (authProvider a) (count_event EvRefreshKeys (log a))
    = (batch, nextRefresh, perr) ->
  (perr <> None \/ exists k, In k batch /\ Key_Validate k <> None) ->
  exists (a1 : Auth) (e : error),
    refreshLoop_step f (KeysTick now) a = Returned Continue a1
    /\ keys a1 = keys a
    /\ nextKeyRefresh a1 = nextKeyRefresh a
    /\ chan_senders (errorChan a1) = (chan_senders (errorChan a) ++ [e])%list
    /\ forall now', (now <= now')%Z ->
         count_event EvRefreshKeys
           (log (outcome_auth
                   (refreshLoop_step f (KeysTick now') (consumer_receive a1))))
         = 2 + count_event EvRefreshKeys (log a).
Proof.
  intros Hdue Hopen Hp Hfail.
  assert (Hr : exists e, refreshKeys a = (emit EvRefreshKeys a, Some e)).
  { unfold refreshKeys. rewrite Hp. destruct perr as [e|]; [eauto|].
    destruct Hfail as [Hfail|Hfail]; [congruence|].
    destruct (build_keyMap_invalid batch ∅ Hfail) as [e He]. rewrite He. eauto. }
  destruct Hr as [e Hr].
  exists (set_errorChan
            (mkChan (chan_id (errorChan a)) false (chan_senders (errorChan a) ++ [e]))
            (emit EvRefreshKeys a)), e.
  split; [|split; [reflexivity|split; [reflexivity|split; [reflexivity|]]]].
  - unfold refreshLoop_step, Time_After.
    destruct (Z.ltb_spec (nextKeyRefresh a) now); [|lia].
    rewrite Hr. unfold chan_send. simpl. rewrite Hopen. reflexivity.
  - intros now' Hlater. rewrite KeysTick_calls.
    unfold consumer_receive, chan_try_recv. simpl.
    destruct (chan_senders (errorChan a) ++ [e])%list; simpl;
      unfold Time_After;
      (destruct (Z.ltb_spec (nextKeyRefresh a) now'); [reflexivity|lia]).
Qed.

(** The second answer of the example provider has a malformed key: the tick
    that meets it keeps the cache of the first answer. *)
Lemma KeysTick_retries_after_failure_witness :
  exists (a1 : Auth) (e : error),
    refreshLoop_step (fun x => x) (KeysTick 2500%Z) Examples.loaded
      = Returned Continue a1
    /\ keys a1 = keys Examples.loaded
    /\ nextKeyRefresh a1 = nextKeyRefresh Examples.loaded
    /\ chan_senders (errorChan a1) = (chan_senders (errorChan Examples.loaded) ++ [e])%list
    /\ forall now', (2500 <= now')%Z ->
         count_event EvRefreshKeys
           (log (outcome_auth
                   (refreshLoop_step (fun x => x) (KeysTick now') (consumer_receive a1))))
         = 2 + count_event EvRefreshKeys (log Examples.loaded).
Proof.
  apply (KeysTick_retries_after_failure (fun x => x) Examples.loaded 2500%Z
           [Examples.k2; Examples.k_bad] 3000%Z None).
  - reflexivity.
  - reflexivity.
  - reflexivity.
  - right. exists Examples.k_bad. split; [right; left; reflexivity|].
    vm_compute. discriminate.
Defined.

(** X14. Cancellation ends the instance for good.  On a started instance
    whose error channel is open with no sender waiting, the cancellation of
    the context makes the loop return: the error channel is closed, the key
    ticker is released, and [Stop] has been called on it twice (by
    [shutdown] and by the deferred call); the access-token ticker is still
    held.  A call of [Start] after that launches nothing and returns the
    closed channel. *)
Theorem CtxDone_is_final (f : Auth -> Auth) (a : Auth) :
  start a = false ->
  chan_closed (errorChan a) = false ->
  chan_senders (errorChan a) = [] ->
  exists a2 : Auth,
    refreshLoop_step f CtxDone (fst (Start a)) = Returned Exit a2
    /\ chan_closed (errorChan a2) = true
    /\ refreshKeysTicker a2 = None
    /\ refreshAccessTokenTicker a2 = Some (mkTicker Second)
    /\ count_event EvTickerStop (log a2) = 2 + count_event EvTickerStop (log a)
    /\ count_event EvChanClose (log a2) = 1 + count_event EvChanClose (log a)
    /\ Start a2 = (a2, errorChan a2)
    /\ count_event EvGoRefreshLoop (log (fst (Start a2)))
         = 1 + count_event EvGoRefreshLoop (log a).
Proof.
  intros Hs Hopen Hnone. rewrite (Start_first a Hs). cbn [fst].
  unfold refreshLoop_step, shutdown, start_body, chan_try_recv, chan_close.
  destruct a as [p [id closed senders] ks nat nk rat rkt st lg].
  simpl in *. subst. simpl. eexists. split; [reflexivity|].
  simpl. repeat split.
Qed.

Lemma CtxDone_is_final_witness :
  exists a2 : Auth,
    refreshLoop_step (fun x => x) CtxDone (fst (Start Examples.fresh))
      = Returned Exit a2
    /\ chan_closed (errorChan a2) = true
    /\ Start a2 = (a2, errorChan a2).
Proof.
  destruct (CtxDone_is_final (fun x => x) Examples.fresh eq_refl eq_refl eq_refl)
    as (a2 & H1 & H2 & _ & _ & _ & _ & H3 & _).
  exists a2. split; [exact H1|]. split; [exact H2|exact H3].
Defined.

(** ** [awaitKey], whatever the cache held at the call *)

(** X15. [awaitKey] answers from the cache only.  It returns within five
    seconds; it returns true exactly when it returns a key; a key it returns
    is the one that the cache held under the id at the moment of the last
    lookup; and an id that is cached when the call is made is answered at
    once, whether a refresh is due or not. *)
Theorem awaitKey_answers_from_cache
    (tl : Timeline) (race : SelectCase) (kid : string) :
  (exists (k : option Key) (ok : bool) (t : nat),
     awaitKey tl race kid = (k, ok, t)
     /\ t <= 5
     /\ (ok = true <-> k <> None)
     /\ (forall key, k = Some key -> lookupAt tl kid t = Some key))
  /\ (forall key, lookupAt tl kid 0 = Some key ->
        awaitKey tl race kid = (Some key, true, 0)).
Proof.
  split.
  - destruct (awaitKey_loop_sound tl race kid maxWaitDuration 0)
      as (k & ok & t & He & Hb & _ & Hk).
    exists k, ok, t. unfold maxWaitDuration in Hb.
    split; [exact He|]. split; [lia|]. destruct k as [key|].
    + destruct Hk as [-> Hl]. split; [split; [discriminate|reflexivity]|].
      intros key' H. inversion H; subst. exact Hl.
    + subst ok. split; [split; [discriminate|congruence]|]. discriminate.
  - intros key H. unfold awaitKey. rewrite awaitKey_loop_unfold, H. reflexivity.
Qed.

Lemma awaitKey_answers_from_cache_witness :
  awaitKey (Examples.still Examples.loaded 5000%Z) TimeoutC "k1"
  = (Some Examples.k1, true, 0).
Proof.
  apply (awaitKey_answers_from_cache (Examples.still Examples.loaded 5000%Z)
           TimeoutC "k1").
  reflexivity.
Defined.

(** X16. Before the first refresh has landed, every lookup waits.  [New]
    leaves [nextKeyRefresh] at the zero time, so on an instance made by [New]
    that stays as it is (no refresh has installed anything), with a clock
    after the zero time, [awaitKey] waits the whole five seconds for any id
    and fails, and [validateJWT] answers "key not found" to every token that
    reaches the key function with a non-empty [kid]. *)
Theorem unrefreshed_instance_waits
    (lib : JWTLibrary) (ctx : option unit) (config : Config) (fresh_chan : nat)
    (a : Auth) (tl : Timeline) (race : SelectCase) :
  New ctx config fresh_chan = (Some a, None) ->
  (forall i, i <= 5 ->
     atLookup tl i = a /\ atCheck tl i = a /\ (zeroTime < nowAt tl i)%Z) ->
  (forall kid, awaitKey tl race kid = (None, false, 5))
  /\ (forall tokenString header alg kid,
        reaches_keyFunc lib tokenString header alg ->
        alg <> "" ->
        header !! "kid" = Some (JString kid) ->
        kid <> "" ->
        validateJWT lib tl race tokenString = (false, "key not found", None)).
Proof.
  intros Hnew Htl.
  assert (Hkeys : keys a = ∅ /\ nextKeyRefresh a = zeroTime).
  { unfold New in Hnew. destruct ctx; [|discriminate].
    destruct (Config_AuthProvider config); [|discriminate].
    inversion Hnew; subst. split; reflexivity. }
  destruct Hkeys as [Hk Hn].
  assert (Hwait : forall kid, awaitKey tl race kid = (None, false, 5)).
  { intros kid.
    assert (Hmiss : forall i, i <= 5 -> lookupAt tl kid i = None).
    { intros i Hi. destruct (Htl i Hi) as (Hl & _ & _).
      unfold lookupAt, keyWithID. rewrite Hl, Hk. apply lookup_empty. }
    apply (awaitKey_loop_window tl race kid maxWaitDuration 0).
    - intros i Hi. unfold maxWaitDuration in Hi. split; [apply Hmiss; lia|].
      destruct (Htl i) as (_ & Hc & Hnow); [lia|].
      unfold isRefreshingAt, Time_After. rewrite Hc, Hn.
      destruct (Z.ltb_spec zeroTime (nowAt tl i)); [reflexivity|lia].
    - destruct race; [apply Hmiss; unfold maxWaitDuration; lia
                     |unfold maxWaitDuration; lia]. }
  split; [exact Hwait|].
  intros tokenString header alg kid Hreach Halg Hkid Hkne. unfold validateJWT.
  rewrite (jwt_Parse_keyFunc_error lib tl race tokenString header alg
             (Sentinel errorKeyNotFound) Hreach).
  - reflexivity.
  - destruct Hreach as (_ & Ha & _). unfold keyFunc, header_string. simpl.
    rewrite Ha, Hkid.
    destruct (String.eqb_spec alg "") as [E|_]; [contradiction|].
    destruct (String.eqb_spec kid "") as [E|_]; [contradiction|].
    rewrite Hwait. reflexivity.
Qed.

Lemma unrefreshed_instance_waits_witness :
  awaitKey (Examples.still Examples.fresh 0%Z) TickerC "k1" = (None, false, 5).
Proof.
  apply (unrefreshed_instance_waits Examples.library (Some tt)
           (mkConfig (Some Examples.provider)) 0 Examples.fresh
           (Examples.still Examples.fresh 0%Z) TickerC eq_refl).
  intros i _. repeat split.
Defined.

(** ** More on the aggregation of requirements *)

(** X17. Aggregation is concatenation all the way: the requirement
    aggregated from two lists of arguments one after the other is the one
    aggregated from the first followed by the one aggregated from the second;
    a single argument is forwarded as it is. *)
Theorem aggregate_app (l1 l2 : list AuthRequirements) (q : AuthRequirements) :
  aggregate (l1 ++ l2) = add_requirement (aggregate l1) (aggregate l2)
  /\ aggregate [q] = q.
Proof.
  split.
  - unfold aggregate. rewrite !fold_add_requirement. unfold add_requirement.
    simpl. rewrite !map_app, !concat_app. reflexivity.
  - destruct q. reflexivity.
Qed.

(** X18. An endpoint registered without any requirement still asks the
    provider: the empty requirement is forwarded to [AuthorizeRequest], and
    an authenticated request that the provider refuses for it gets 403
    "forbidden" and never reaches the handler. *)
Theorem no_requirement_still_authorizes
    (Resp : Type) (lib : JWTLibrary) (tl : Timeline) (race : SelectCase)
    (a : Auth) (handler : Request -> option Resp) (r : Request) (reason : string) :
  Authenticate lib tl race (Some r) = (true, reason, None) ->
  AuthorizeRequest (authProvider a) r (mkAuthRequirements [] []) = (false, None) ->
  wrappedHandler lib tl race a handler [] r = Status 403%Z "forbidden".
Proof.
  intros Ha Hz. unfold wrappedHandler. rewrite Ha.
  unfold Authorize, aggregate. simpl fold_left. rewrite Hz. reflexivity.
Qed.

Lemma no_requirement_still_authorizes_witness :
  wrappedHandler Examples.library (Examples.still Examples.loaded 1000%Z) TickerC
    Examples.loaded (fun _ => Some 200%Z) [] (Examples.bearer Examples.tok_RS256_k1)
  = Status 403%Z "forbidden".
Proof.
  apply (no_requirement_still_authorizes Z Examples.library
           (Examples.still Examples.loaded 1000%Z) TickerC Examples.loaded
           (fun _ => Some 200%Z) (Examples.bearer Examples.tok_RS256_k1) "");
    reflexivity.
Defined.

(** ** [ParseClaimsFromRequest] *)

Lemma Split_no_sep (sep : ascii) (s : string) :
  hasByte sep s = false -> Split sep s = [s].
Proof.
  induction s as [|c s IH]; simpl; [reflexivity|].
  intros H. apply orb_false_elim in H as [Hc Hs].
  rewrite Hc, (IH Hs). reflexivity.
Qed.

Lemma Split_segment (sep : ascii) (s rest : string) :
  hasByte sep s = false ->
  Split sep (String.append s (String sep rest)) = s :: Split sep rest.
Proof.
  induction s as [|c s IH]; push_append; simpl.
  - intros _. rewrite Ascii.eqb_refl. reflexivity.
  - intros H. apply orb_false_elim in H as [Hc Hs].
    rewrite Hc, (IH Hs). reflexivity.
Qed.

Lemma Split_three (h p sig : string) :
  hasByte "."%char h = false ->
  hasByte "."%char p = false ->
  hasByte "."%char sig = false ->
  Split "."%char (three_segments h p sig) = [h; p; sig].
Proof.
  intros Hh Hp Hs. unfold three_segments.
  rewrite (Split_segment _ h _ Hh), (Split_segment _ p _ Hp), (Split_no_sep _ sig Hs).
  reflexivity.
Qed.

(** X19. [ParseClaimsFromRequest] does not look at the signature.  For a
    bearer token of three segments, the claims it returns (or the error) are
    those of decoding and unmarshalling the second segment alone: two
    requests whose tokens differ in the header and signature segments only
    get the same answer. *)
Theorem ParseClaimsFromRequest_ignores_signature
    (Claims : Type) (decode : string -> error + string)
    (unmarshal : string -> error + Claims)
    (r r' : Request) (h h' p sig sig' : string) :
  hasByte "."%char h = false -> hasByte "."%char h' = false ->
  hasByte "."%char p = false ->
  hasByte "."%char sig = false -> hasByte "."%char sig' = false ->
  ExtractBearerToken r = (three_segments h p sig, true) ->
  ExtractBearerToken r' = (three_segments h' p sig', true) ->
  ParseClaimsFromRequest decode unmarshal r
    = match decode p with
      | inl err => inl (Wrapf "failed to decode payload" err)
      | inr decoded =>
          match unmarshal decoded with
          | inl err => inl (Wrapf "failed to unmarshal claims" err)
          | inr claims => inr claims
          end
      end
  /\ ParseClaimsFromRequest decode unmarshal r'
       = ParseClaimsFromRequest decode unmarshal r.
Proof.
  intros Hh Hh' Hp Hs Hs' He He'. unfold ParseClaimsFromRequest.
  rewrite He, He', (Split_three h p sig Hh Hp Hs), (Split_three h' p sig' Hh' Hp Hs').
  split; reflexivity.
Qed.

(** A token and the same token with a forged signature segment, with a
    decoder that knows the payload segment e30. *)
Lemma ParseClaimsFromRequest_ignores_signature_witness :
  ParseClaimsFromRequest
    (fun s => if String.eqb s "e30" then inr "{}" else inl (Errorf "illegal base64 data"))
    (fun s => inr s)
    (mkRequest {[ "Authorization" := ["Bearer eyJ.e30.forged"] ]})
  = ParseClaimsFromRequest
      (fun s => if String.eqb s "e30" then inr "{}" else inl (Errorf "illegal base64 data"))
      (fun s => inr s)
      (mkRequest {[ "Authorization" := ["Bearer eyJ.e30.c2ln"] ]}).
Proof.
  apply (ParseClaimsFromRequest_ignores_signature string
           (fun s => if String.eqb s "e30" then inr "{}"
                     else inl (Errorf "illegal base64 data"))
           (fun s => inr s)
           (mkRequest {[ "Authorization" := ["Bearer eyJ.e30.c2ln"] ]})
           (mkRequest {[ "Authorization" := ["Bearer eyJ.e30.forged"] ]})
           "eyJ" "eyJ" "e30" "c2ln" "forged");
    reflexivity.
Defined.

(** ** Instances of the properties without a precondition *)

Lemma ExtractBearerToken_agrees_with_Authenticate_witness :
  Examples.tok_HS256_k1 <> ""
  /\ Authenticate Examples.library (Examples.still Examples.loaded 1000%Z) TickerC
       (Some (Examples.bearer Examples.tok_HS256_k1))
     = match validateJWT Examples.library (Examples.still Examples.loaded 1000%Z)
               TickerC Examples.tok_HS256_k1 with
       | (_, _, Some err) => (false, "", Some (Wrapf "failed to validate jwt" err))
       | (isValid, reason, None) => (isValid, reason, None)
       end.
Proof.
  exact (ExtractBearerToken_agrees_with_Authenticate Examples.library
           (Examples.still Examples.loaded 1000%Z) TickerC
           (Examples.bearer Examples.tok_HS256_k1)).
Defined.

Lemma Authenticate_outcomes_witness :
  Authenticate Examples.library (Examples.still Examples.loaded 1000%Z) TickerC
    (Some (Examples.bearer Examples.tok_no_alg)) = (true, "", None)
  \/ (exists reason,
        In reason client_reasons /\ reason <> ""
        /\ Authenticate Examples.library (Examples.still Examples.loaded 1000%Z)
             TickerC (Some (Examples.bearer Examples.tok_no_alg))
           = (false, reason, None))
  \/ (exists err,
        Authenticate Examples.library (Examples.still Examples.loaded 1000%Z)
          TickerC (Some (Examples.bearer Examples.tok_no_alg))
        = (false, "", Some err)).
Proof.
  exact (Authenticate_outcomes Examples.library
           (Examples.still Examples.loaded 1000%Z) TickerC
           (Some (Examples.bearer Examples.tok_no_alg))).
Defined.

Lemma aggregate_app_witness :
  aggregate ([mkAuthRequirements ["admin"] []]
             ++ [mkAuthRequirements ["auditor"] ["reports.read"]])
  = mkAuthRequirements ["admin"; "auditor"] ["reports.read"].
Proof.
  destruct (aggregate_app [mkAuthRequirements ["admin"] []]
              [mkAuthRequirements ["auditor"] ["reports.read"]]
              (mkAuthRequirements [] [])) as [H _].
  rewrite H. reflexivity.
Defined.
